(** * issue-bot: the rotating-issue orchestrator of [src/lib/issue-bot.js]

    A shallow embedding of the script and the proofs of its specified
    properties.

    - JavaScript values are immutable trees ([value]); the only objects the
      script mutates, the [inputs] / [options] records, live in a store
      ([heap]) and are passed by reference ([loc]).
    - The issue tracker (REST and GraphQL) and the template renderer are
      external: every request is answered, or rejected with an exception, by
      the [collaborators], who see the history of the run.
    - [async] functions await every request before the next one starts, so a
      run is a sequential computation in the monad [M]: state (store and
      trace of events) plus exceptions.
    - Logging ([core.info], [core.debug], [core.warning]) has no effect on
      control flow or on the collaborators and is left out; [core.setFailed] and
      [core.setOutput] are events of the trace. *)

From Stdlib Require Import QArith Qround Ascii.
From stdpp Require Import base gmap strings list fin_maps pretty.

Local Open Scope Z_scope.
Local Open Scope string_scope.

Set Warnings "-register-all,-clear-no-such-hyp".

(* ===================================================================== *)
(** ** Values *)
(* ===================================================================== *)

(** A JavaScript number: the finite doubles are rationals; the two zeros are
    identified (the script never divides by a number nor prints the sign of
    zero). *)
Inductive number :=
  | NaN
  | Infinity (negative : bool)
  | Num (q : Q).

Inductive value :=
  | VUndefined
  | VNull
  | VBool (b : bool)
  | VNum (n : number)
  | VStr (s : string)
  | VArr (elems : list value)
  | VObj (props : list (string * value)).

Definition int (z : Z) : number := Num (inject_Z z).
Definition VInt (z : Z) : value := VNum (int z).

(** The conversions between strings and numbers belong to the JavaScript
    runtime, not to the script. *)
Record runtime := {
  StringToNumber : string -> number;
  NumberToString : number -> string
}.

Definition number_is_zero (n : number) : bool :=
  match n with Num q => Qeq_bool q 0 | _ => false end.

(** [!!v] *)
Definition truthy (v : value) : bool :=
  match v with
  | VUndefined | VNull => false
  | VBool b => b
  | VNum NaN => false
  | VNum n => negb (number_is_zero n)
  | VStr s => negb (String.eqb s "")
  | VArr _ | VObj _ => true
  end.

Definition typeof (v : value) : string :=
  match v with
  | VUndefined => "undefined"
  | VNull => "object"
  | VBool _ => "boolean"
  | VNum _ => "number"
  | VStr _ => "string"
  | VArr _ | VObj _ => "object"
  end.

(** [a === b] on numbers: [NaN] differs from everything. *)
Definition number_eqb (a b : number) : bool :=
  match a, b with
  | Num p, Num q => Qeq_bool p q
  | Infinity s, Infinity t => Bool.eqb s t
  | _, _ => false
  end.

(** [a < b] on numbers; [None] is the [undefined] of a comparison with
    [NaN]. *)
Definition number_ltb (a b : number) : option bool :=
  match a, b with
  | NaN, _ | _, NaN => None
  | Infinity s, Infinity t => Some (s && negb t)
  | Infinity s, Num _ => Some s
  | Num _, Infinity t => Some (negb t)
  | Num p, Num q => Some (negb (Qle_bool q p))
  end.

(** [x === y]. Arrays and objects are compared by identity; the trees of
    this model carry none, and every array or object met by a comparison of
    the script is a distinct one (deserialised from a response or from the
    inputs), so two of them are never equal. *)
Definition strict_eq (x y : value) : bool :=
  match x, y with
  | VUndefined, VUndefined => true
  | VNull, VNull => true
  | VBool a, VBool b => Bool.eqb a b
  | VNum a, VNum b => number_eqb a b
  | VStr a, VStr b => String.eqb a b
  | _, _ => false
  end.

(** SameValueZero, the equality of [Array.prototype.includes]: as [===]
    but [NaN] equals [NaN]. *)
Definition same_value_zero (x y : value) : bool :=
  match x, y with
  | VNum NaN, VNum NaN => true
  | _, _ => strict_eq x y
  end.

Section Coercions.
Variable rt : runtime.

(** [String(v)], [`${v}`] *)
Fixpoint ToString (v : value) : string :=
  match v with
  | VUndefined => "undefined"
  | VNull => "null"
  | VBool true => "true"
  | VBool false => "false"
  | VNum n => NumberToString rt n
  | VStr s => s
  | VArr elems =>
      String.concat ","
        (List.map (fun e => match e with
                            | VUndefined | VNull => ""
                            | _ => ToString e
                            end) elems)
  | VObj _ => "[object Object]"
  end.

(** ToPrimitive with hint number: [valueOf] of a plain array or object is
    the object itself, so its [toString] decides. *)
Definition ToPrimitive (v : value) : value :=
  match v with
  | VArr _ | VObj _ => VStr (ToString v)
  | _ => v
  end.

(** [Number(v)] *)
Definition ToNumber (v : value) : number :=
  match ToPrimitive v with
  | VUndefined => NaN
  | VNull => int 0
  | VBool true => int 1
  | VBool false => int 0
  | VNum n => n
  | VStr s => StringToNumber rt s
  | VArr _ | VObj _ => NaN
  end.

(** The abstract relational comparison [x < y]. *)
Definition js_lt (x y : value) : option bool :=
  match ToPrimitive x, ToPrimitive y with
  | VStr a, VStr b => Some (String.ltb a b)
  | px, py => number_ltb (ToNumber px) (ToNumber py)
  end.

(** [x >= y]: true unless [x < y] is true or undefined. *)
Definition js_ge (x y : value) : bool :=
  match js_lt x y with
  | Some false => true
  | _ => false
  end.
End Coercions.

(* ===================================================================== *)
(** ** The pure helpers of the script *)
(* ===================================================================== *)

(** [conditions.includes(true)] *)
Definition includes (xs : list value) (x : value) : bool :=
  existsb (fun e => same_value_zero e x) xs.

Definition needPreviousIssue (conditions : list value) : bool :=
  includes conditions (VBool true).

Definition issueExists (rt : runtime) (previousIssueNumber : value) : bool :=
  js_ge rt previousIssueNumber (VInt 0).

(** [a && b] yields [a] when it is falsy and [b] otherwise. *)
Definition js_and (a b : value) : value := if truthy a then b else a.

(** The fields of a record; a missing field reads as [undefined]. *)
Definition prop (o : gmap string value) (key : string) : value :=
  default VUndefined (o !! key).

Definition checkInputs (inputs : gmap string value) : bool :=
  let ok := true in
  let ok := truthy (prop inputs "title") in
  let ok := if truthy (prop inputs "pinned")
            then truthy (prop inputs "labels") else ok in
  let ok := if truthy (prop inputs "closePrevious")
            then truthy (prop inputs "labels") else ok in
  let ok := if truthy (prop inputs "linkedComments")
            then truthy (prop inputs "labels") else ok in
  let ok := if truthy (prop inputs "rotateAssignees")
            then truthy (js_and (prop inputs "labels") (prop inputs "assignees"))
            else ok in
  ok.

(* ===================================================================== *)
(** ** Exceptions *)
(* ===================================================================== *)

(** A thrown error, known by its rendering [`${error}`]. *)
Record exn := Exn { description : string }.

Inductive result (A : Type) :=
  | Ok (a : A)
  | Throw (e : exn).
Arguments Ok {A} a.
Arguments Throw {A} e.

Global Instance result_ret : MRet result := fun A a => Ok a.
Global Instance result_bind : MBind result := fun A B f r =>
  match r with
  | Ok a => f a
  | Throw e => Throw e
  end.

(** The errors the language itself throws. Their wording is the engine's;
    no property below depends on it. *)
Definition TypeError (message : string) : exn := Exn ("TypeError: " ++ message).

Definition nullish (v : value) : bool :=
  match v with VUndefined | VNull => true | _ => false end.

Definition typeof_nullish (v : value) : string :=
  match v with VNull => "null" | _ => "undefined" end.

Fixpoint assoc (props : list (string * value)) (key : string) : value :=
  match props with
  | [] => VUndefined
  | (k, v) :: rest => if String.eqb k key then v else assoc rest key
  end.

Definition string_length (s : string) : Z := Z.of_nat (String.length s).

(** [v.name] for a data property [name]. *)
Definition get_field (v : value) (name : string) : result value :=
  match v with
  | VUndefined | VNull =>
      Throw (TypeError ("Cannot read properties of " ++ typeof_nullish v
                        ++ " (reading '" ++ name ++ "')"))
  | VObj props => Ok (assoc props name)
  | VArr elems =>
      Ok (if String.eqb name "length" then VInt (Z.of_nat (length elems))
          else VUndefined)
  | VStr s =>
      Ok (if String.eqb name "length" then VInt (string_length s)
          else VUndefined)
  | VBool _ | VNum _ => Ok VUndefined
  end.

(** [v[i]] for an integer index [i]. *)
Definition get_elem (v : value) (i : Z) : result value :=
  match v with
  | VUndefined | VNull =>
      Throw (TypeError ("Cannot read properties of " ++ typeof_nullish v
                        ++ " (reading '" ++ pretty i ++ "')"))
  | VArr elems =>
      Ok (if decide (0 <= i) then nth (Z.to_nat i) elems VUndefined
          else VUndefined)
  | VStr s =>
      Ok (if decide (0 <= i)
          then match String.get (Z.to_nat i) s with
               | Some c => VStr (String c "")
               | None => VUndefined
               end
          else VUndefined)
  | VObj props => Ok (assoc props (pretty i))
  | VBool _ | VNum _ => Ok VUndefined
  end.

(** [a % b] on integers, [None] standing for [NaN]: the remainder has the
    sign of the dividend. *)
Definition js_rem (a b : Z) : option Z :=
  if decide (b = 0) then None else Some (Z.rem a b).

(** [elems.indexOf(x)]: the first position holding a value [=== x], or -1. *)
Fixpoint indexOf_from (i : Z) (elems : list value) (x : value) : Z :=
  match elems with
  | [] => -1
  | e :: rest => if strict_eq e x then i else indexOf_from (i + 1) rest x
  end.

Definition indexOf (elems : list value) (x : value) : Z := indexOf_from 0 elems x.

(** [s.indexOf(t)] on strings: the first position where [t] occurs. *)
Definition string_indexOf (s t : string) : Z :=
  match String.index 0 t s with
  | Some i => Z.of_nat i
  | None => -1
  end.

Section NextAssignee.
Variable rt : runtime.

(** [getNextAssignee(assignees, previousAssignee)]. [indexOf], [length]
    and indexing exist on arrays and on strings; on anything else the call
    of [assignees.indexOf] throws. *)
Definition getNextAssignee (assignees previousAssignee : value) : result value :=
  match assignees with
  | VArr elems =>
      let index := js_rem (indexOf elems previousAssignee + 1)
                          (Z.of_nat (length elems)) in
      Ok (VArr [match index with
                | Some i => nth (Z.to_nat i) elems VUndefined
                | None => VUndefined
                end])
  | VStr s =>
      let index := js_rem (string_indexOf s (ToString rt previousAssignee) + 1)
                          (string_length s) in
      Ok (VArr [match index with
                | Some i => match String.get (Z.to_nat i) s with
                            | Some c => VStr (String c "")
                            | None => VUndefined
                            end
                | None => VUndefined
                end])
  | VUndefined | VNull =>
      Throw (TypeError ("Cannot read properties of " ++ typeof_nullish assignees
                        ++ " (reading 'indexOf')"))
  | VBool _ | VNum _ | VObj _ =>
      Throw (TypeError "assignees.indexOf is not a function")
  end.
End NextAssignee.

(* ===================================================================== *)
(** ** The collaborators, the store and the monad of a run *)
(* ===================================================================== *)

(** The requests of the script to its external collaborators. Every REST
    request also carries the repository coordinates ([...context.repo]),
    which are constant during a run and left implicit. *)
Inductive request :=
  | issues_listForRepo (labels : value)
  | issues_create (title labels assignees body : value)
  | issues_update_state (issue_number : value) (state : string)
  | issues_update_milestone (issue_number milestone : value)
  | issues_createComment (issue_number : value) (body : string)
  | projects_listForRepo
  | projects_listColumns (project_id : value)
  | projects_createCard (column_id content_id : value) (content_type : string)
  | graphql_pinnedIssues (last : Z)
  | graphql_unpinIssue (issueId : string)
  | graphql_pinIssue (issueId : string)
  | handlebars_render (template previousIssueNumber assignees : value).

Inductive event :=
  | Request (r : request)
  | SetOutput (name value : string)
  | SetFailed (message : string).

Abbreviation loc := positive.

Record world := World {
  heap : gmap loc (gmap string value);
  trace : list event
}.

(** The external collaborators: the answer to a request, given the events of
    the run so far. *)
Abbreviation collaborators := (list event -> request -> result value).

Definition M (A : Type) : Type := world -> result A * world.

Global Instance M_ret : MRet M := fun A a w => (Ok a, w).
Global Instance M_bind : MBind M := fun A B f m w =>
  match m w with
  | (Ok a, w') => f a w'
  | (Throw e, w') => (Throw e, w')
  end.

Definition lift {A} (r : result A) : M A := fun w => (r, w).

(** [try { body } catch (error) { handler(error) }] *)
Definition try_catch {A} (body : M A) (handler : exn -> M A) : M A := fun w =>
  match body w with
  | (Ok a, w') => (Ok a, w')
  | (Throw e, w') => handler e w'
  end.

Definition emit (e : event) : M unit := fun w =>
  (Ok tt, World (heap w) (trace w ++ [e])).

(** [await] of a request: it is recorded, then answered or rejected. *)
Definition call (ext : collaborators) (r : request) : M value := fun w =>
  (ext (trace w) r, World (heap w) (trace w ++ [Request r])).

Definition deref (w : world) (l : loc) : gmap string value :=
  default ∅ (heap w !! l).

(** [obj.key] *)
Definition get (obj : loc) (key : string) : M value := fun w =>
  (Ok (prop (deref w obj) key), w).

(** [obj.key = v] *)
Definition set (obj : loc) (key : string) (v : value) : M unit := fun w =>
  (Ok tt, World (<[obj := <[key := v]> (deref w obj)]> (heap w)) (trace w)).

(** [delete obj[key]] *)
Definition delete_prop (obj : loc) (key : string) : M unit := fun w =>
  (Ok tt, World (<[obj := delete key (deref w obj)]> (heap w)) (trace w)).

(** The keys a [for (const key in obj)] loop visits, fixed when it starts. *)
Definition keys (obj : loc) : M (list string) := fun w =>
  (Ok (map_to_list (deref w obj)).*1, w).

(** [Object.assign({}, source)]: a new object with the fields of [source]. *)
Definition Object_assign_new (source : loc) : M loc := fun w =>
  let target := fresh (dom (heap w)) in
  (Ok target, World (<[target := deref w source]> (heap w)) (trace w)).

Fixpoint for_each {A} (xs : list A) (body : A -> M unit) : M unit :=
  match xs with
  | [] => mret tt
  | x :: rest => body x;; for_each rest body
  end.

(** [elems.find(x => p(x))], where [p] may throw. *)
Fixpoint find_result (p : value -> result bool) (elems : list value) : result value :=
  match elems with
  | [] => Ok VUndefined
  | x :: rest => b ← p x; if (b : bool) then Ok x else find_result p rest
  end.

(** [elems.findIndex(x => p(x))], where [p] may throw. *)
Fixpoint findIndex_from (i : Z) (p : value -> result bool) (elems : list value) : result Z :=
  match elems with
  | [] => Ok (-1)
  | x :: rest => b ← p x; if (b : bool) then Ok i else findIndex_from (i + 1) p rest
  end.

Definition array_findIndex (v : value) (p : value -> result bool) : result Z :=
  match v with
  | VArr elems => findIndex_from 0 p elems
  | VUndefined | VNull =>
      Throw (TypeError ("Cannot read properties of " ++ typeof_nullish v
                        ++ " (reading 'findIndex')"))
  | _ => Throw (TypeError "findIndex is not a function")
  end.

Definition array_find (v : value) (p : value -> result bool) : result value :=
  match v with
  | VArr elems => find_result p elems
  | VUndefined | VNull =>
      Throw (TypeError ("Cannot read properties of " ++ typeof_nullish v
                        ++ " (reading 'find')"))
  | _ => Throw (TypeError "find is not a function")
  end.

(* ===================================================================== *)
(** ** The script *)
(* ===================================================================== *)

Record new_issue := {
  newIssueNumber : value;
  newIssueId : value;
  newIssueNodeId : value
}.

Record previous_issue := {
  previousIssueNumber : value;
  previousIssueNodeId : value;
  previousAssignees : value
}.

Definition is_empty_prop (v : value) : bool :=
  strict_eq v (VStr "") || String.eqb (typeof v) "undefined".

(** [const { a, b } = v] reads fields of [v], which must not be nullish. *)
Definition destructure (v : value) : result value :=
  if nullish v
  then Throw (TypeError ("Cannot destructure '" ++ typeof_nullish v
                         ++ "' as it is " ++ typeof_nullish v ++ "."))
  else Ok v.

Section Script.
Variable rt : runtime.
Variable ext : collaborators.

Definition removeEmptyProps (obj : loc) : M loc :=
  ks ← keys obj;
  for_each ks (fun key =>
    v ← get obj key;
    if is_empty_prop v then delete_prop obj key else mret tt);;
  mret obj.

Definition isPinned (issueId : value) : M bool :=
  data ← call ext (graphql_pinnedIssues 3);
  resource ← lift (get_field data "resource");
  if negb (truthy resource) then mret false
  else
    pinned ← lift (get_field resource "pinnedIssues");
    nodes ← lift (get_field pinned "nodes");
    let pinnedIssues := if truthy nodes then nodes else VArr [] in
    found ← lift (array_findIndex pinnedIssues (fun pinnedIssue =>
               issue ← get_field pinnedIssue "issue";
               id ← get_field issue "id";
               Ok (strict_eq id issueId)));
    mret (bool_decide (0 <= found)).

Definition unpin (issueId : value) : M value :=
  pinned ← isPinned issueId;
  if negb pinned then mret VUndefined
  else call ext (graphql_unpinIssue (ToString rt issueId)).

Definition pin (issueId : value) : M value :=
  call ext (graphql_pinIssue (ToString rt issueId)).

Definition createNewIssue (options : loc) : M new_issue :=
  copy ← Object_assign_new options;
  options ← removeEmptyProps copy;
  title ← get options "title";
  labels ← get options "labels";
  assignees ← get options "assignees";
  body ← get options "body";
  response ← call ext (issues_create title labels assignees body);
  let response := if truthy response then response else VObj [] in
  data ← lift (get_field response "data" ≫= destructure);
  number ← lift (get_field data "number");
  id ← lift (get_field data "id");
  node_id ← lift (get_field data "node_id");
  mret {| newIssueNumber := VNum (ToNumber rt number);
          newIssueId := id;
          newIssueNodeId := node_id |}.

Definition closeIssue (issueNumber : value) : M value :=
  call ext (issues_update_state issueNumber "closed").

Definition makeLinkedComments (newIssueNumber previousIssueNumber : value) : M unit :=
  call ext (issues_createComment newIssueNumber
                  ("Previous in series: #" ++ ToString rt previousIssueNumber));;
  call ext (issues_createComment previousIssueNumber
                  ("Next in series: #" ++ ToString rt newIssueNumber));;
  mret tt.

Definition getPreviousIssue (labels : value) : M previous_issue :=
  response ← call ext (issues_listForRepo labels);
  items ← lift (get_field response "data");
  data ← lift (get_elem items 0);
  '(number, node_id, assignees) ←
    (if truthy data
     then
       number ← lift (get_field data "number");
       node_id ← lift (get_field data "node_id");
       assignees ← lift (get_field data "assignees");
       mret (number, node_id, assignees)
     else mret (VUndefined, VUndefined, VStr ""));
  mret {| previousIssueNumber :=
            if truthy number then VNum (ToNumber rt number) else VUndefined;
          previousIssueNodeId := node_id;
          previousAssignees := assignees |}.

Definition addIssueToProjectColumn (issueId projectNumber columnName : value) : M unit :=
  response ← call ext projects_listForRepo;
  projects ← lift (destructure response ≫= fun r => get_field r "data");
  project ← lift (array_find projects (fun project =>
               number ← get_field project "number";
               Ok (strict_eq number (VNum (ToNumber rt projectNumber)))));
  if negb (truthy project) then mret tt
  else
    project_id ← lift (get_field project "id");
    response ← call ext (projects_listColumns project_id);
    columns ← lift (destructure response ≫= fun r => get_field r "data");
    column ← lift (array_find columns (fun column =>
                name ← get_field column "name";
                Ok (strict_eq name columnName)));
    if negb (truthy column) then mret tt
    else
      column_id ← lift (get_field column "id");
      call ext (projects_createCard column_id issueId "Issue");;
      mret tt.

Definition addIssueToMilestone (issueNumber milestoneNumber : value) : M unit :=
  response ← call ext (issues_update_milestone issueNumber milestoneNumber);
  issue ← lift (destructure response ≫= fun r => get_field r "data");
  mret tt.

(** The [try] block of [run]. *)
Definition run_body (inputs : loc) : M unit :=
  pinned ← get inputs "pinned";
  closePrevious ← get inputs "closePrevious";
  rotateAssignees ← get inputs "rotateAssignees";
  linkedComments ← get inputs "linkedComments";
  previous ←
    (if needPreviousIssue [pinned; closePrevious; rotateAssignees; linkedComments]
     then labels ← get inputs "labels"; getPreviousIssue labels
     else mret {| previousIssueNumber := VInt (-1);
                  previousIssueNodeId := VUndefined;
                  previousAssignees := VUndefined |});
  rotateAssignees ← get inputs "rotateAssignees";
  (if issueExists rt (previousIssueNumber previous) && truthy rotateAssignees
   then
     len ← lift (get_field (previousAssignees previous) "length");
     previousAssignee ←
       (if truthy len
        then lift (get_elem (previousAssignees previous) 0
                   ≫= fun first => get_field first "login")
        else mret VUndefined);
     assignees ← get inputs "assignees";
     next ← lift (getNextAssignee rt assignees previousAssignee);
     set inputs "assignees" next
   else mret tt);;
  body ← get inputs "body";
  assignees ← get inputs "assignees";
  rendered ← call ext (handlebars_render body (previousIssueNumber previous) assignees);
  set inputs "body" rendered;;
  created ← createNewIssue inputs;
  project ← get inputs "project";
  column ← get inputs "column";
  (if truthy (js_and project column)
   then addIssueToProjectColumn (newIssueId created) project column
   else mret tt);;
  milestone ← get inputs "milestone";
  (if truthy milestone
   then addIssueToMilestone (newIssueNumber created) milestone
   else mret tt);;
  linkedComments ← get inputs "linkedComments";
  (if issueExists rt (previousIssueNumber previous) && truthy linkedComments
   then makeLinkedComments (newIssueNumber created) (previousIssueNumber previous)
   else mret tt);;
  closePrevious ← get inputs "closePrevious";
  (if issueExists rt (previousIssueNumber previous) && truthy closePrevious
   then
     closeIssue (previousIssueNumber previous);;
     pinned ← get inputs "pinned";
     if truthy pinned
     then unpin (previousIssueNodeId previous);;
          pin (newIssueNodeId created);;
          mret tt
     else mret tt
   else mret tt);;
  if truthy (newIssueNumber created)
  then emit (SetOutput "issue-number" (ToString rt (newIssueNumber created)))
  else mret tt.

Definition failure_message (error : exn) : string :=
  "Error encountered: " ++ description error ++ ".".

Definition run (inputs : loc) : M unit :=
  try_catch (run_body inputs)
            (fun error => emit (SetFailed (failure_message error))).
End Script.

Definition outcome {A} (r : result A) : option exn :=
  match r with Ok _ => None | Throw e => Some e end.

(** The events a computation adds to the trace. *)
Definition events_of {A} (m : M A) (w : world) : list event :=
  drop (length (trace w)) (trace (m w).2).

(* ===================================================================== *)
(** ** Vocabulary of the specification *)
(* ===================================================================== *)

(** [n >= 0] for a number: [NaN] is not. *)
Definition number_nonneg (n : number) : Prop :=
  match n with
  | NaN => False
  | Infinity negative => negative = false
  | Num q => (0 <= q)%Q
  end.

(** "[n] is a number with [n >= 0]" *)
Definition nonneg_number (v : value) : Prop :=
  match v with
  | VNum n => number_nonneg n
  | _ => False
  end.

(** The answer to the pinned-issues query: the repository resource is
    absent ([None]) or lists the pinned issues by id. *)
Definition pinned_response (ids : option (list value)) : value :=
  VObj [("resource",
         match ids with
         | None => VNull
         | Some ids =>
             VObj [("pinnedIssues",
                    VObj [("nodes",
                           VArr (List.map (fun id => VObj [("issue", VObj [("id", id)])])
                                          ids))])]
         end)].

(** The fields of a record that are neither [''] nor [undefined]. *)
Definition kept (o : gmap string value) : gmap string value :=
  filter (fun kv => is_empty_prop kv.2 = false) o.

Definition is_lookup (e : event) : bool :=
  match e with
  | Request (issues_listForRepo _) => true
  | _ => false
  end.

(** The requests that close and re-pin the series. *)
Definition is_series_step (e : event) : bool :=
  match e with
  | Request (issues_update_state _ _)
  | Request (graphql_pinnedIssues _)
  | Request (graphql_unpinIssue _)
  | Request (graphql_pinIssue _) => true
  | _ => false
  end.

(** The flags that [run] hands to [needPreviousIssue]. *)
Definition lookup_flags (inputs : gmap string value) : list value :=
  [prop inputs "pinned"; prop inputs "closePrevious";
   prop inputs "rotateAssignees"; prop inputs "linkedComments"].

(** The events of a run that hands the series over from the issue
    [previous] to the new one: among them, in this order and nothing else of
    the kind, the previous issue is closed, the pinned issues are queried,
    the previous issue is unpinned when that query lists it ([unpinned]), and
    the new issue is pinned, by the node id [newNode] that the answer to the
    creation request carries. [h] is the history before the run. *)
Definition hands_over (rt : runtime) (ext : collaborators) (h : list event)
    (previous : previous_issue) (events : list event) : Prop :=
  let close := Request (issues_update_state (previousIssueNumber previous) "closed") in
  exists (before after : list event) (unpinned : bool) (newNode : value),
    events =
      (before
       ++ [close; Request (graphql_pinnedIssues 3)]
       ++ (if unpinned
           then [Request (graphql_unpinIssue (ToString rt (previousIssueNodeId previous)))]
           else [])
       ++ [Request (graphql_pinIssue (ToString rt newNode))]
       ++ after)%list
    /\ Forall (fun e => is_series_step e = false) before
    /\ Forall (fun e => is_series_step e = false) after
    /\ (forall store,
          (isPinned ext (previousIssueNodeId previous)
             (World store (h ++ before ++ [close]))).1 = Ok unpinned)
    /\ (exists b1 b2 title labels assignees body response,
          before = (b1 ++ Request (issues_create title labels assignees body) :: b2)%list
          /\ ext (h ++ b1)%list (issues_create title labels assignees body) = Ok response
          /\ (get_field (if truthy response then response else VObj []) "data"
              ≫= fun data => get_field data "node_id") = Ok newNode).

Definition not_failure (e : event) : bool :=
  match e with SetFailed _ => false | _ => true end.

(* ===================================================================== *)
(** ** Properties of computations *)
(* ===================================================================== *)

(** The loop of [removeEmptyProps] over the keys [ks], on the fields [o]. *)
Definition strip_keys (ks : list string) (o : gmap string value) : gmap string value :=
  foldl (fun acc key => if is_empty_prop (prop acc key) then delete key acc else acc) o ks.

(** [obeys Φ m]: from any world, [m] only appends events to the trace, and
    the history [h] before it, the events it adds and the way it ends (a
    thrown exception, or none) are related by [Φ]. *)
Definition obeys (Φ : list event -> list event -> option exn -> Prop)
    {A} (m : M A) : Prop :=
  forall w, exists evs : list event,
    trace (m w).2 = (trace w ++ evs)%list /\ Φ (trace w) evs (outcome (m w).1).

(** The relations that hold of silent steps and compose along [≫=]. *)
Class Sequential (Φ : list event -> list event -> option exn -> Prop) := {
  seq_nil : forall h o, Φ h [] o;
  seq_app : forall h evs1 evs2 o,
    Φ h evs1 None -> Φ (h ++ evs1)%list evs2 o -> Φ h (evs1 ++ evs2)%list o
}.

(** Every event added passes the test [P]. *)
Definition only (P : event -> bool) : list event -> list event -> option exn -> Prop :=
  fun _ evs _ => Forall (fun e => P e = true) evs.

(** A request that the collaborators reject is the last event added, and
    its exception is the one the computation ends with. *)
Definition halts_on_rejection (ext : collaborators) :
    list event -> list event -> option exn -> Prop :=
  fun h evs o =>
    forall (pre : list event) (r : request) (post : list event) (e : exn),
      evs = (pre ++ Request r :: post)%list ->
      ext (h ++ pre)%list r = Throw e ->
      post = [] /\ o = Some e.

(** A computation that leaves the world as it found it. *)
Definition silent {A} (m : M A) : Prop := forall w, (m w).2 = w.

Definition not_lookup (e : event) : bool := negb (is_lookup e).

Definition not_series_step (e : event) : bool := negb (is_series_step e).

(** The fields of [inputs], except the two that [run] assigns, are in [w']
    what they were in [w]. *)
Definition same_flags (inputs : loc) (w w' : world) : Prop :=
  forall key, key <> "assignees" -> key <> "body" ->
    prop (deref w' inputs) key = prop (deref w inputs) key.

Definition keeps_flags (inputs : loc) {A} (m : M A) : Prop :=
  forall w, same_flags inputs w (m w).2.

(* ===================================================================== *)
(** ** Sample data *)
(* ===================================================================== *)

Definition Q_integer (q : Q) : option Z :=
  if Qeq_bool q (inject_Z (Qfloor q)) then Some (Qfloor q) else None.

Definition digit_of (c : Ascii.ascii) : option Z :=
  let n := Z.of_N (Ascii.N_of_ascii c) in
  if decide (48 <= n <= 57) then Some (n - 48) else None.

Fixpoint digits_value (acc : Z) (s : string) : option Z :=
  match s with
  | "" => Some acc
  | String c rest => d ← digit_of c; digits_value (10 * acc + d) rest
  end.

(** A runtime for the examples. It agrees with ECMAScript on what the
    examples convert: strings of decimal digits, with a minus sign or
    without, and integers. *)
Definition integer_runtime : runtime := {|
  StringToNumber := fun s =>
    match s with
    | String "-"%char (String c rest) =>
        from_option (fun z => int (- z)) NaN (digits_value 0 (String c rest))
    | _ => from_option int NaN (digits_value 0 s)
    end;
  NumberToString := fun n =>
    match n with
    | NaN => "NaN"
    | Infinity true => "-Infinity"
    | Infinity false => "Infinity"
    | Num q => from_option pretty "NaN" (Q_integer q)
    end
|}.

Definition alice_bob : list value := [VStr "alice"; VStr "bob"].

(** Inputs with an empty title, pinning requested and a label given. *)
Definition untitled_pinned : gmap string value :=
  <["title" := VStr ""]> (<["pinned" := VBool true]> (<["labels" := VStr "recurring"]> ∅)).

(** The record [{a: '', b: 'x', c: undefined}], alone in the store. *)
Definition sparse_record : gmap string value :=
  <["a" := VStr ""]> (<["b" := VStr "x"]> (<["c" := VUndefined]> ∅)).

Definition store_of (o : gmap string value) : world := World {[1%positive := o]} [].

(** Inputs whose flags are truthy, yet none is the boolean [true]. *)
Definition truthy_flags : gmap string value :=
  <["title" := VStr "Weekly sync"]> (<["labels" := VStr "recurring"]>
  (<["pinned" := VStr "true"]> (<["closePrevious" := VInt 1]>
  (<["rotateAssignees" := VStr "true"]> (<["linkedComments" := VInt 1]> ∅))))).

(** A series: the previous issue is number 10 (node N10), pinned; the issue
    the run creates is number 20 (node N20); templates render as they are. *)
Definition series : collaborators := fun _ r =>
  match r with
  | issues_listForRepo _ =>
      Ok (VObj [("data", VArr [VObj [("number", VInt 10); ("node_id", VStr "N10");
                                     ("assignees", VArr [VObj [("login", VStr "alice")]])]])])
  | issues_create _ _ _ _ =>
      Ok (VObj [("data", VObj [("number", VInt 20); ("id", VInt 2000);
                               ("node_id", VStr "N20")])])
  | graphql_pinnedIssues _ => Ok (pinned_response (Some [VStr "N10"]))
  | handlebars_render template _ _ => Ok template
  | _ => Ok (VObj [("data", VObj [])])
  end.

Definition issue_10 : previous_issue := {|
  previousIssueNumber := VInt 10;
  previousIssueNodeId := VStr "N10";
  previousAssignees := VArr [VObj [("login", VStr "alice")]]
|}.

(** Inputs that ask to close and to re-pin. *)
Definition close_and_pin : gmap string value :=
  <["title" := VStr "Weekly sync"]> (<["body" := VStr "Agenda"]>
  (<["labels" := VArr [VStr "recurring"]]>
  (<["pinned" := VBool true]> (<["closePrevious" := VBool true]> ∅)))).

(** Collaborators that answer every request with [undefined]. *)
Definition mute : collaborators := fun _ _ => Ok VUndefined.

(** Collaborators whose answer to the pinned-issues query lists [ids]. *)
Definition pinning (ids : list value) : collaborators := fun _ r =>
  match r with
  | graphql_pinnedIssues _ => Ok (pinned_response (Some ids))
  | _ => Ok VUndefined
  end.

(** The requests that follow up on a previous issue: the comments and the
    steps that close and re-pin. *)
Definition is_follow_up (e : event) : bool :=
  match e with
  | Request (issues_createComment _ _) => true
  | _ => is_series_step e
  end.

Definition not_follow_up (e : event) : bool := negb (is_follow_up e).

(** What [getPreviousIssue] answers when it finds no issue. *)
Definition no_previous_issue : previous_issue := {|
  previousIssueNumber := VUndefined;
  previousIssueNodeId := VUndefined;
  previousAssignees := VStr ""
|}.

(** Collaborators who answer every request with an empty list. *)
Definition nothing_listed : collaborators := fun _ _ => Ok (VObj [("data", VArr [])]).

(** Inputs that ask for everything: pin, close, link, rotate. *)
Definition everything : gmap string value :=
  <["title" := VStr "Weekly sync"]> (<["body" := VStr "Agenda"]>
  (<["labels" := VArr [VStr "recurring"]]> (<["assignees" := VArr [VStr "alice"; VStr "bob"]]>
  (<["pinned" := VBool true]> (<["closePrevious" := VBool true]>
  (<["linkedComments" := VBool true]> (<["rotateAssignees" := VBool true]> ∅))))))).

Definition any_event (e : event) : bool := true.

Definition is_output (e : event) : bool :=
  match e with SetOutput _ _ => true | _ => false end.

Definition not_output (e : event) : bool := negb (is_output e).

(** The events added hold no output, or end normally with the output of the
    issue number and hold no other. *)
Definition output_last : list event -> list event -> option exn -> Prop :=
  fun _ evs o =>
    Forall (fun e => not_output e = true) evs
    \/ (o = None
        /\ exists (pre : list event) (v : string),
             evs = (pre ++ [SetOutput "issue-number" v])%list
             /\ Forall (fun e => not_output e = true) pre).

(** Between [w] and [w'], the record [inputs] has changed at most in its
    fields [assignees] and [body], and every other record of [w] is in [w']
    as it was. *)
Definition untouched (inputs : loc) (w w' : world) : Prop :=
  same_flags inputs w w'
  /\ forall l o, l <> inputs -> heap w !! l = Some o -> heap w' !! l = Some o.

Definition leaves (inputs : loc) {A} (m : M A) : Prop :=
  forall w, untouched inputs w (m w).2.

(** The answer to a listing request: the objects listed, under [data]. *)
Definition listing (items : list (list (string * value))) : value :=
  VObj [("data", VArr (VObj <$> items))].

(** The option [key] as [createNewIssue] sends it. *)
Definition sent (o : gmap string value) (key : string) : value :=
  if is_empty_prop (prop o key) then VUndefined else prop o key.

(** A repository with one project, number 5, whose only column is "To do". *)
Definition board : collaborators := fun _ r =>
  match r with
  | projects_listForRepo => Ok (listing [[("number", VInt 5); ("id", VInt 500)]])
  | projects_listColumns _ => Ok (listing [[("name", VStr "To do"); ("id", VInt 51)]])
  | _ => Ok VUndefined
  end.

(** Options with an empty title, a [null] body and no assignees. *)
Definition blank_options : gmap string value :=
  <["title" := VStr ""]> (<["body" := VNull]> (<["labels" := VArr [VStr "recurring"]]> ∅)).


(** Inputs without any flag, project or milestone. *)
Definition plain : gmap string value :=
  <["title" := VStr "Weekly sync"]> (<["body" := VStr "Agenda"]> ∅).

(** Inputs that pin and rotate, with empty arrays of labels and assignees. *)
Definition empty_arrays : gmap string value :=
  <["title" := VStr "Weekly sync"]> (<["labels" := VArr []]> (<["assignees" := VArr []]>
  (<["pinned" := VBool true]> (<["rotateAssignees" := VBool true]> ∅)))).

Definition three_names : list string := ["alice"; "bob"; "carol"].

(** Collaborators for whom the repository url resolves to something that is
    not a repository: the resource has no pinned issues. *)
Definition not_a_repository : collaborators := fun _ _ =>
  Ok (VObj [("resource", VObj [])]).

(** Collaborators whose repository has pinned issues without a list of
    nodes. *)
Definition no_nodes : collaborators := fun _ _ =>
  Ok (VObj [("resource", VObj [("pinnedIssues", VObj [("nodes", VNull)])])]).

(* ===================================================================== *)
(** ** Proofs: the pure helpers *)
(* ===================================================================== *)

Lemma same_value_zero_true (e : value) :
  same_value_zero e (VBool true) = true <-> e = VBool true.
Proof.
  destruct e as [| |b|n|s|elems|props]; simpl; try (split; [discriminate | discriminate]).
  - destruct b; simpl; split; congruence.
  - destruct n; simpl; split; discriminate.
Qed.

Lemma needPreviousIssue_In (conditions : list value) :
  needPreviousIssue conditions = true <-> In (VBool true) conditions.
Proof.
  unfold needPreviousIssue, includes. rewrite existsb_exists. split.
  - intros (e & Hin & He). apply same_value_zero_true in He. by subst.
  - intros Hin. exists (VBool true). split; [done | by apply same_value_zero_true].
Qed.

Lemma indexOf_from_range (elems : list value) (x : value) (i : Z) :
  indexOf_from i elems x = -1 \/
  i <= indexOf_from i elems x < i + Z.of_nat (length elems).
Proof.
  revert i. induction elems as [|e rest IH]; intros i; simpl; [by left|].
  destruct (strict_eq e x).
  - right. lia.
  - destruct (IH (i + 1)) as [->|?]; [by left | right; lia].
Qed.

Lemma indexOf_from_absent (elems : list value) (x : value) (i : Z) :
  (forall e, In e elems -> strict_eq e x = false) -> indexOf_from i elems x = -1.
Proof.
  revert i. induction elems as [|e rest IH]; intros i Hall; simpl; [done|].
  rewrite (Hall e) by (by left). apply IH. intros e' He'. apply Hall. by right.
Qed.

(** [indexOf] finds the first position holding a value [=== x]. *)
Lemma indexOf_from_first (elems : list value) (x : value) (i : Z) :
  0 <= i -> indexOf_from i elems x <> -1 ->
  exists (before : list value) (e : value) (after : list value),
    elems = (before ++ e :: after)%list /\
    strict_eq e x = true /\
    (forall b, In b before -> strict_eq b x = false) /\
    indexOf_from i elems x = i + Z.of_nat (length before).
Proof.
  revert i. induction elems as [|e rest IH]; intros i Hi Hfound; simpl in *; [done|].
  destruct (strict_eq e x) eqn:He.
  - exists [], e, rest. simpl. repeat split; [done | tauto | lia].
  - destruct (IH (i + 1)) as (before & e' & after & -> & He' & Hb & Hidx); [lia | done |].
    exists (e :: before), e', after. simpl. repeat split; try done.
    + intros b [<-|Hin]; [done | by apply Hb].
    + lia.
Qed.

Lemma issueExists_number (rt : runtime) (x : number) :
  issueExists rt (VNum x) = true <-> number_nonneg x.
Proof.
  unfold issueExists, js_ge, js_lt. simpl. destruct x as [|negative|q]; simpl.
  - split; [discriminate | tauto].
  - destruct negative; split; congruence.
  - rewrite <- Qle_bool_iff. change (inject_Z 0) with 0%Q.
    destruct (Qle_bool 0 q); simpl; split; congruence.
Qed.

Lemma issueExists_ToNumber (rt : runtime) (v : value) :
  issueExists rt v = issueExists rt (VNum (ToNumber rt v)).
Proof. by destruct v as [| |[]| | | |]. Qed.

(** C1. With an empty title, [checkInputs] still answers [true] once a
    later rule passes: each enabled rule overwrites [ok] instead of
    narrowing it. Here the title is empty, [pinned] is set and a label is
    given. *)
Theorem checkInputs_untitled_pinned : checkInputs untitled_pinned = true.
Proof. reflexivity. Qed.

(** What [checkInputs] computes: the verdict of the last enabled rule, and
    the title rule only when no flag is set. *)
Lemma checkInputs_last_rule (inputs : gmap string value) :
  checkInputs inputs =
    if truthy (prop inputs "rotateAssignees")
    then truthy (prop inputs "labels") && truthy (prop inputs "assignees")
    else if truthy (prop inputs "linkedComments") || truthy (prop inputs "closePrevious")
            || truthy (prop inputs "pinned")
    then truthy (prop inputs "labels")
    else truthy (prop inputs "title").
Proof.
  unfold checkInputs, js_and.
  destruct (truthy (prop inputs "rotateAssignees")).
  - destruct (truthy (prop inputs "labels")) eqn:Hlabels; simpl; by rewrite ?Hlabels.
  - by destruct (truthy (prop inputs "linkedComments")),
               (truthy (prop inputs "closePrevious")),
               (truthy (prop inputs "pinned")).
Qed.

(** C2. For a non-empty array [A] and any [P], [getNextAssignee] answers the
    one-element array holding [A[(indexOf(A, P) + 1) mod length(A)]]; when
    no element of [A] is [=== P], that element is [A[0]]. *)
Theorem getNextAssignee_round_robin (rt : runtime) (A : list value) (P : value) :
  A <> [] ->
  getNextAssignee rt (VArr A) P =
    Ok (VArr [nth (Z.to_nat ((indexOf A P + 1) mod Z.of_nat (length A))) A VUndefined])
  /\ ((forall e, In e A -> strict_eq e P = false) ->
      getNextAssignee rt (VArr A) P = Ok (VArr [nth 0 A VUndefined])).
Proof.
  intros HA.
  assert (Hlen : 0 < Z.of_nat (length A)) by (destruct A; [done | simpl; lia]).
  assert (Hrem : js_rem (indexOf A P + 1) (Z.of_nat (length A))
                 = Some ((indexOf A P + 1) mod Z.of_nat (length A))).
  { unfold js_rem. destruct (decide _) as [?|_]; [lia|].
    f_equal. apply Z.rem_mod_nonneg; [|done].
    destruct (indexOf_from_range A P 0) as [H|H]; unfold indexOf; lia. }
  split.
  - simpl. by rewrite Hrem.
  - intros Habsent. simpl. rewrite Hrem. unfold indexOf.
    rewrite (indexOf_from_absent A P 0 Habsent). simpl.
    by rewrite Z.mod_0_l by lia.
Qed.

Lemma getNextAssignee_alice_bob :
  getNextAssignee integer_runtime (VArr alice_bob) (VStr "alice")
  = Ok (VArr [VStr "bob"]).
Proof.
  exact (proj1 (getNextAssignee_round_robin integer_runtime alice_bob (VStr "alice")
                  ltac:(discriminate))).
Defined.

(** C3, as the script has it. [issueExists] compares after conversion to a
    number: on a number it answers whether the number is [>= 0] ([NaN] is
    not), it answers [false] on -1 and on [undefined], and on any other
    value it answers for [Number(value)]. *)
Theorem issueExists_converts (rt : runtime) :
  (forall x : number, issueExists rt (VNum x) = true <-> number_nonneg x)
  /\ issueExists rt (VInt (-1)) = false
  /\ issueExists rt VUndefined = false
  /\ (forall v : value, issueExists rt v = issueExists rt (VNum (ToNumber rt v))).
Proof.
  split; [apply issueExists_number|].
  split; [reflexivity|]. split; [reflexivity|]. apply issueExists_ToNumber.
Qed.

(** C3 as stated fails: [null >= 0] holds, and [null] is not a number. *)
Lemma issueExists_null :
  issueExists integer_runtime VNull = true /\ ~ nonneg_number VNull.
Proof. split; [reflexivity | simpl; tauto]. Qed.

(** C9, on the flags alone: only the boolean [true] counts. *)
Lemma needPreviousIssue_truthy_strings_and_numbers :
  needPreviousIssue [VStr "true"; VInt 1; VStr "true"; VInt 1] = false
  /\ Forall (fun v => truthy v = true) [VStr "true"; VInt 1].
Proof. split; [reflexivity | repeat constructor]. Qed.

(* ===================================================================== *)
(** ** Proofs: stepping through a computation *)
(* ===================================================================== *)

Lemma bind_unfold {A B} (m : M A) (k : A -> M B) (w : world) :
  (m ≫= k) w = match m w with
               | (Ok a, w') => k a w'
               | (Throw e, w') => (Throw e, w')
               end.
Proof. reflexivity. Qed.

Lemma bind_ret {A B} (a : A) (k : A -> M B) (w : world) : (mret a ≫= k) w = k a w.
Proof. reflexivity. Qed.

Lemma bind_lift {A B} (r : result A) (k : A -> M B) (w : world) :
  (lift r ≫= k) w = match r with Ok a => k a w | Throw e => (Throw e, w) end.
Proof. reflexivity. Qed.

Lemma bind_get {B} (obj : loc) (key : string) (k : value -> M B) (w : world) :
  (get obj key ≫= k) w = k (prop (deref w obj) key) w.
Proof. reflexivity. Qed.

Lemma bind_call {B} (ext : collaborators) (r : request) (k : value -> M B) (w : world) :
  (call ext r ≫= k) w =
    match ext (trace w) r with
    | Ok a => k a (World (heap w) (trace w ++ [Request r]))
    | Throw e => (Throw e, World (heap w) (trace w ++ [Request r]))
    end.
Proof. unfold call. rewrite bind_unfold. by destruct (ext (trace w) r). Qed.

Lemma world_eta (w : world) : World (heap w) (trace w) = w.
Proof. by destruct w. Qed.

Lemma deref_Some (w : world) (l : loc) (o : gmap string value) :
  heap w !! l = Some o -> deref w l = o.
Proof. unfold deref. by intros ->. Qed.

(** *** [removeEmptyProps] *)

Lemma is_empty_prop_spec (v : value) :
  is_empty_prop v = true <-> v = VStr "" \/ v = VUndefined.
Proof.
  destruct v as [| |b|n|s|elems|props]; unfold is_empty_prop; simpl;
    try (split; [discriminate | intros [?|?]; discriminate]).
  - split; [by right | done].
  - rewrite orb_false_r, String.eqb_eq. split; [intros ->; by left | by intros [[= ->]|?]].
Qed.

Lemma strip_keys_lookup (ks : list string) (o : gmap string value) (key : string) :
  strip_keys ks o !! key =
    if decide (key ∈ ks) then (if is_empty_prop (prop o key) then None else o !! key)
    else o !! key.
Proof.
  revert o. induction ks as [|k rest IH]; intros o; simpl.
  { done. }
  rewrite IH. clear IH.
  destruct (decide (key = k)) as [->|Hne].
  - rewrite (decide_True (P := k ∈ k :: rest)) by apply list_elem_of_here.
    destruct (is_empty_prop (prop o k)) eqn:Hk.
    + rewrite lookup_delete_eq. by repeat case_match.
    + rewrite Hk. by case_decide.
  - assert (Hsame : (if is_empty_prop (prop o k) then delete k o else o) !! key = o !! key).
    { destruct (is_empty_prop (prop o k)); [by rewrite lookup_delete_ne | done]. }
    unfold prop at 1. rewrite Hsame. fold (prop o key).
    destruct (decide (key ∈ rest)) as [Hin|Hnin].
    + by rewrite (decide_True (P := key ∈ k :: rest)) by by apply list_elem_of_further.
    + rewrite (decide_False (P := key ∈ k :: rest)); [done|].
      by intros [?|?]%elem_of_cons.
Qed.

(** Over all the keys of a record, the loop keeps exactly the fields that
    are neither [''] nor [undefined]. *)
Lemma strip_keys_all (o : gmap string value) (key : string) :
  strip_keys (map_to_list o).*1 o !! key =
    match o !! key with
    | Some v => if is_empty_prop v then None else Some v
    | None => None
    end.
Proof.
  rewrite strip_keys_lookup. unfold prop. destruct (o !! key) as [v|] eqn:Hkey; simpl.
  - rewrite decide_True; [done|].
    apply list_elem_of_fmap. exists (key, v). split; [done | by apply elem_of_map_to_list].
  - by case_decide.
Qed.

Lemma for_each_strip (obj : loc) (ks : list string) (w : world) (o : gmap string value) :
  heap w !! obj = Some o ->
  for_each ks (fun key =>
    v ← get obj key;
    if is_empty_prop v then delete_prop obj key else mret tt) w
  = (Ok tt, World (<[obj := strip_keys ks o]> (heap w)) (trace w)).
Proof.
  revert w o. induction ks as [|k rest IH]; intros w o Hobj.
  - simpl. unfold mret, M_ret. by rewrite insert_id, world_eta.
  - cbn [for_each]. rewrite bind_unfold, bind_get, (deref_Some _ _ _ Hobj).
    change (strip_keys (k :: rest) o)
      with (strip_keys rest (if is_empty_prop (prop o k) then delete k o else o)).
    destruct (is_empty_prop (prop o k)).
    + unfold delete_prop at 1. rewrite (deref_Some _ _ _ Hobj).
      erewrite IH by apply lookup_insert_eq. cbn [heap trace].
      by rewrite insert_insert_eq.
    + unfold mret at 1, M_ret at 1. by apply IH.
Qed.

Lemma kept_lookup (o : gmap string value) (key : string) :
  kept o !! key =
    match o !! key with
    | Some v => if is_empty_prop v then None else Some v
    | None => None
    end.
Proof.
  unfold kept. rewrite map_lookup_filter. destruct (o !! key) as [v|]; simpl; [|done].
  destruct (is_empty_prop v); by simplify_option_eq.
Qed.

Lemma removeEmptyProps_run (obj : loc) (w : world) (o : gmap string value) :
  heap w !! obj = Some o ->
  removeEmptyProps obj w = (Ok obj, World (<[obj := kept o]> (heap w)) (trace w)).
Proof.
  intros Hobj. unfold removeEmptyProps.
  rewrite bind_unfold. unfold keys at 1. rewrite (deref_Some _ _ _ Hobj).
  rewrite bind_unfold, (for_each_strip _ _ _ _ Hobj). unfold mret, M_ret.
  do 3 f_equal. apply map_eq. intros key.
  by rewrite strip_keys_all, kept_lookup.
Qed.

(** C4. [removeEmptyProps] returns the record it was given, from which it
    has deleted every key bound to [''] or to [undefined] and nothing else;
    on [{a: '', b: 'x', c: undefined}] that leaves [{b: 'x'}]. *)
Theorem removeEmptyProps_strips (obj : loc) (w : world) (o : gmap string value) :
  heap w !! obj = Some o ->
  removeEmptyProps obj w = (Ok obj, World (<[obj := kept o]> (heap w)) (trace w))
  /\ (forall key v, kept o !! key = Some v <->
                    o !! key = Some v /\ v <> VStr "" /\ v <> VUndefined).
Proof.
  intros Hobj. split; [by apply removeEmptyProps_run|].
  intros key v. rewrite kept_lookup. destruct (o !! key) as [v'|]; [|naive_solver].
  destruct (is_empty_prop v') eqn:Hv'.
  - apply is_empty_prop_spec in Hv'. naive_solver.
  - split; [|naive_solver]. intros [= ->]. split; [done|].
    split; intros ->; by rewrite (proj2 (is_empty_prop_spec _)) in Hv'; auto.
Qed.

Lemma removeEmptyProps_sparse_record :
  removeEmptyProps 1 (store_of sparse_record)
  = (Ok 1%positive, store_of {["b" := VStr "x"]}).
Proof.
  rewrite (proj1 (removeEmptyProps_strips 1 (store_of sparse_record) sparse_record
                    ltac:(reflexivity))).
  vm_compute. reflexivity.
Defined.

(* ===================================================================== *)
(** ** Proofs: what a computation adds to the trace *)
(* ===================================================================== *)

Section Obeys.
Context (Φ : list event -> list event -> option exn -> Prop) `{!Sequential Φ}.

Lemma obeys_silent {A} (m : M A) :
  (forall w, trace (m w).2 = trace w) -> obeys Φ m.
Proof.
  intros Hm w. exists []. rewrite Hm, app_nil_r. split; [done | apply seq_nil].
Qed.

Lemma obeys_ret {A} (a : A) : obeys Φ (mret a).
Proof. by apply obeys_silent. Qed.

Lemma obeys_lift {A} (r : result A) : obeys Φ (lift r).
Proof. by apply obeys_silent. Qed.

Lemma obeys_get (obj : loc) (key : string) : obeys Φ (get obj key).
Proof. by apply obeys_silent. Qed.

Lemma obeys_set (obj : loc) (key : string) (v : value) : obeys Φ (set obj key v).
Proof. by apply obeys_silent. Qed.

Lemma obeys_delete_prop (obj : loc) (key : string) : obeys Φ (delete_prop obj key).
Proof. by apply obeys_silent. Qed.

Lemma obeys_keys (obj : loc) : obeys Φ (keys obj).
Proof. by apply obeys_silent. Qed.

Lemma obeys_Object_assign_new (source : loc) : obeys Φ (Object_assign_new source).
Proof. by apply obeys_silent. Qed.

Lemma obeys_bind {A B} (m : M A) (k : A -> M B) :
  obeys Φ m -> (forall a, obeys Φ (k a)) -> obeys Φ (m ≫= k).
Proof.
  intros Hm Hk w. rewrite bind_unfold.
  destruct (Hm w) as (evs1 & Htrace1 & HΦ1).
  destruct (m w) as [[a|e] w1]; simpl in *.
  - destruct (Hk a w1) as (evs2 & Htrace2 & HΦ2).
    exists (evs1 ++ evs2)%list. split.
    + by rewrite Htrace2, Htrace1, app_assoc.
    + apply seq_app; [done|]. by rewrite <- Htrace1.
  - by exists evs1.
Qed.

Lemma obeys_if {A} (b : bool) (m1 m2 : M A) :
  obeys Φ m1 -> obeys Φ m2 -> obeys Φ (if b then m1 else m2).
Proof. by destruct b. Qed.

Lemma obeys_for_each {A} (xs : list A) (body : A -> M unit) :
  (forall x, obeys Φ (body x)) -> obeys Φ (for_each xs body).
Proof.
  intros Hbody. induction xs as [|x rest IH]; simpl.
  - apply obeys_ret.
  - apply obeys_bind; [apply Hbody | intros _; apply IH].
Qed.

Lemma obeys_call (ext : collaborators) (r : request) :
  (forall h, Φ h [Request r] (outcome (ext h r))) -> obeys Φ (call ext r).
Proof. intros Hr w. exists [Request r]. split; [done | apply Hr]. Qed.

Lemma obeys_emit (e : event) :
  (forall h, Φ h [e] None) -> obeys Φ (emit e).
Proof. intros He w. exists [e]. split; [done | apply He]. Qed.

Lemma obeys_removeEmptyProps (obj : loc) : obeys Φ (removeEmptyProps obj).
Proof.
  unfold removeEmptyProps.
  apply obeys_bind; [apply obeys_keys | intros ks].
  apply obeys_bind; [|intros _; apply obeys_ret].
  apply obeys_for_each. intros key.
  apply obeys_bind; [apply obeys_get | intros v].
  apply obeys_if; [apply obeys_delete_prop | apply obeys_ret].
Qed.
End Obeys.

Lemma obeys_events_of {Φ A} (m : M A) (w : world) :
  obeys Φ m ->
  trace (m w).2 = (trace w ++ events_of m w)%list
  /\ Φ (trace w) (events_of m w) (outcome (m w).1).
Proof.
  intros Hm. destruct (Hm w) as (evs & Htrace & HΦ).
  unfold events_of. by rewrite Htrace, drop_app_length.
Qed.

(** *** Two relations: on the kind of events, and on rejected requests *)

Global Instance only_sequential (P : event -> bool) : Sequential (only P).
Proof.
  split; unfold only.
  - intros _ _. constructor.
  - intros _ evs1 evs2 _ H1 H2. by apply Forall_app.
Qed.

Lemma only_call (P : event -> bool) (ext : collaborators) (r : request) :
  P (Request r) = true -> obeys (only P) (call ext r).
Proof. intros HP. apply obeys_call. intros h. by repeat constructor. Qed.

Lemma only_emit (P : event -> bool) (e : event) :
  P e = true -> obeys (only P) (emit e).
Proof. intros HP. apply obeys_emit. intros h. by repeat constructor. Qed.

Global Instance halts_sequential (ext : collaborators) : Sequential (halts_on_rejection ext).
Proof.
  split; unfold halts_on_rejection.
  - intros h o pre r post e Hevs. by destruct pre.
  - intros h evs1 evs2 o H1 H2 pre r post e Hevs Hrej.
    apply app_eq_app in Hevs as [mid [[-> Hmid]|[-> Hmid]]].
    + destruct mid as [|x mid]; simpl in Hmid.
      * apply (H2 [] r post e); [done|]. by rewrite !app_nil_r.
      * injection Hmid as <- ->.
        by destruct (H1 pre r mid e eq_refl Hrej) as [_ ?].
    + apply (H2 mid r post e Hmid). by rewrite <- app_assoc.
Qed.

Lemma halts_call (ext : collaborators) (r : request) :
  obeys (halts_on_rejection ext) (call ext r).
Proof.
  apply obeys_call. intros h pre r' post e Hevs Hrej.
  destruct pre as [|x pre]; simplify_eq/=.
  - rewrite app_nil_r in Hrej. by rewrite Hrej.
  - by destruct pre.
Qed.

Lemma halts_emit (ext : collaborators) (e : event) :
  (forall r, e <> Request r) -> obeys (halts_on_rejection ext) (emit e).
Proof.
  intros He. apply obeys_emit. intros h pre r post e' Hevs _.
  destruct pre as [|x pre]; simplify_eq/=.
  - by destruct (He r).
  - by destruct pre.
Qed.

(** The proof that a computation obeys a relation follows its text. *)
Ltac obey_step :=
  lazymatch goal with
  | |- Sequential _ => apply _
  | |- forall _, _ => intros ?
  | |- obeys _ (mbind _ _) => apply obeys_bind
  | |- obeys _ (mret _) => apply obeys_ret
  | |- obeys _ (lift _) => apply obeys_lift
  | |- obeys _ (get _ _) => apply obeys_get
  | |- obeys _ (set _ _ _) => apply obeys_set
  | |- obeys _ (removeEmptyProps _) => apply obeys_removeEmptyProps
  | |- obeys _ (Object_assign_new _) => apply obeys_Object_assign_new
  | |- obeys (only _) (call _ _) => apply only_call; reflexivity
  | |- obeys (only _) (emit _) => apply only_emit; reflexivity
  | |- obeys (halts_on_rejection _) (call _ _) => apply halts_call
  | |- obeys (halts_on_rejection _) (emit _) => apply halts_emit; discriminate
  | |- obeys _ (if _ then _ else _) => apply obeys_if
  | |- obeys _ (let '(_, _) := ?x in _) => destruct x
  end.

Ltac obey_unfold :=
  lazymatch goal with
  | |- obeys _ (isPinned _ _) => unfold isPinned
  | |- obeys _ (unpin _ _ _) => unfold unpin
  | |- obeys _ (pin _ _ _) => unfold pin
  | |- obeys _ (createNewIssue _ _ _) => unfold createNewIssue
  | |- obeys _ (closeIssue _ _) => unfold closeIssue
  | |- obeys _ (makeLinkedComments _ _ _ _) => unfold makeLinkedComments
  | |- obeys _ (getPreviousIssue _ _ _) => unfold getPreviousIssue
  | |- obeys _ (addIssueToProjectColumn _ _ _ _ _) => unfold addIssueToProjectColumn
  | |- obeys _ (addIssueToMilestone _ _ _) => unfold addIssueToMilestone
  | |- obeys _ (run_body _ _ _) => unfold run_body
  end.

Ltac obey := repeat first [obey_step | obey_unfold | progress cbv beta zeta].

Section Halting.
Context (rt : runtime) (ext : collaborators).

Lemma run_body_halts (inputs : loc) :
  obeys (halts_on_rejection ext) (run_body rt ext inputs).
Proof. obey. Qed.
End Halting.

Lemma snoc_eq_app_cons {A} (l pre post : list A) (x y : A) :
  (l ++ [x])%list = (pre ++ y :: post)%list ->
  (post = [] /\ x = y /\ l = pre)
  \/ exists post', post = (post' ++ [x])%list /\ l = (pre ++ y :: post')%list.
Proof.
  intros Heq. destruct post as [|p post _] using rev_ind.
  - apply app_inj_tail in Heq as [-> ->]. by left.
  - right. exists post.
    change (pre ++ y :: post ++ [p])%list with (pre ++ (y :: post) ++ [p])%list in Heq.
    rewrite app_assoc in Heq. by apply app_inj_tail in Heq as [-> ->].
Qed.

Section Failure.
Context (rt : runtime) (ext : collaborators).

Lemma run_body_never_reports (inputs : loc) :
  obeys (only not_failure) (run_body rt ext inputs).
Proof. obey. Qed.

Lemma run_unfold (inputs : loc) (w : world) :
  run rt ext inputs w =
    match run_body rt ext inputs w with
    | (Ok a, w') => (Ok a, w')
    | (Throw e, w') =>
        (Ok tt, World (heap w') (trace w' ++ [SetFailed (failure_message e)]))
    end.
Proof. reflexivity. Qed.

Lemma run_events (inputs : loc) (w : world) :
  events_of (run rt ext inputs) w =
    match (run_body rt ext inputs w).1 with
    | Ok _ => events_of (run_body rt ext inputs) w
    | Throw e => (events_of (run_body rt ext inputs) w
                  ++ [SetFailed (failure_message e)])%list
    end.
Proof.
  destruct (obeys_events_of (run_body rt ext inputs) w (run_body_halts rt ext inputs))
    as [Htrace _].
  unfold events_of at 1. rewrite run_unfold.
  destruct (run_body rt ext inputs w) as [[[]|e] w1]; simpl in *;
    by rewrite Htrace, <- ?app_assoc, drop_app_length.
Qed.

End Failure.


(* ===================================================================== *)
(** ** Proofs: the operations of the script *)
(* ===================================================================== *)

Lemma silent_ret {A} (a : A) : silent (mret a).
Proof. done. Qed.

Lemma silent_lift {A} (r : result A) : silent (lift r).
Proof. done. Qed.

Lemma silent_get (obj : loc) (key : string) : silent (get obj key).
Proof. done. Qed.

Lemma silent_bind {A B} (m : M A) (k : A -> M B) :
  silent m -> (forall a, silent (k a)) -> silent (m ≫= k).
Proof.
  intros Hm Hk w. rewrite bind_unfold. specialize (Hm w).
  destruct (m w) as [[a|e] w1]; simpl in *; subst w1; [apply Hk | done].
Qed.

Lemma silent_if {A} (b : bool) (m1 m2 : M A) :
  silent m1 -> silent m2 -> silent (if b then m1 else m2).
Proof. by destruct b. Qed.

Ltac silence :=
  repeat lazymatch goal with
  | |- forall _, _ => intros ?
  | |- silent (mbind _ _) => apply silent_bind
  | |- silent (mret _) => apply silent_ret
  | |- silent (lift _) => apply silent_lift
  | |- silent (get _ _) => apply silent_get
  | |- silent (if _ then _ else _) => apply silent_if
  | |- silent (let '(_, _) := ?x in _) => destruct x
  | |- silent (let _ := _ in _) => cbv zeta
  end.

Lemma silent_world {A} (m : M A) (w : world) : silent m -> (m w).2 = w.
Proof. intros Hm. apply Hm. Qed.

(** *** [isPinned] *)

Lemma strict_eq_strings (a b : string) : strict_eq (VStr a) (VStr b) = true <-> a = b.
Proof. apply String.eqb_eq. Qed.

Lemma findIndex_pinned (issueId : value) (ids : list value) (i : Z) :
  0 <= i ->
  exists k : Z,
    findIndex_from i
      (fun pinnedIssue =>
         issue ← get_field pinnedIssue "issue";
         id ← get_field issue "id";
         Ok (strict_eq id issueId))
      (List.map (fun id => VObj [("issue", VObj [("id", id)])]) ids) = Ok k
    /\ bool_decide (0 <= k) = existsb (fun id => strict_eq id issueId) ids.
Proof.
  revert i. induction ids as [|id rest IH]; intros i Hi.
  - by exists (-1).
  - cbn [List.map findIndex_from existsb].
    change (get_field (VObj [("issue", VObj [("id", id)])]) "issue")
      with (Ok (VObj [("id", id)])).
    cbn [mbind result_bind].
    change (get_field (VObj [("id", id)]) "id") with (Ok id).
    cbn [mbind result_bind].
    destruct (strict_eq id issueId).
    + exists i. split; [done | by apply bool_decide_eq_true].
    + apply IH. lia.
Qed.

(** C5. [isPinned] asks for the last three pinned issues, once. When the
    answer has no repository resource it returns [false]; when the answer
    lists pinned issues it returns [true] if and only if [issueId] is [===]
    to the id of one of them. *)
Theorem isPinned_among_pinned (ext : collaborators) (issueId : value) (w : world)
    (data : value) :
  ext (trace w) (graphql_pinnedIssues 3) = Ok data ->
  events_of (isPinned ext issueId) w = [Request (graphql_pinnedIssues 3)]
  /\ (forall resource,
        get_field data "resource" = Ok resource -> truthy resource = false ->
        (isPinned ext issueId w).1 = Ok false)
  /\ (forall ids,
        data = pinned_response (Some ids) ->
        (isPinned ext issueId w).1 = Ok (existsb (fun id => strict_eq id issueId) ids)
        /\ ((isPinned ext issueId w).1 = Ok true <->
            exists id, In id ids /\ strict_eq id issueId = true)).
Proof.
  intros Hdata. split; [|split].
  - unfold events_of, isPinned. rewrite bind_call, Hdata.
    rewrite silent_world by silence. cbn [trace]. by rewrite drop_app_length.
  - intros resource Hresource Hfalsy.
    unfold isPinned. rewrite bind_call, Hdata, bind_lift, Hresource, Hfalsy. done.
  - intros ids ->.
    assert (Hrun : (isPinned ext issueId w).1
                   = Ok (existsb (fun id => strict_eq id issueId) ids)).
    { unfold isPinned. rewrite bind_call, Hdata.
      destruct (findIndex_pinned issueId ids 0) as (k & Hk & Hfound); [done|].
      rewrite bind_lift. cbn [pinned_response get_field assoc String.eqb Ascii.eqb Bool.eqb].
      cbn [truthy negb]. rewrite bind_lift. cbn [get_field assoc String.eqb Ascii.eqb Bool.eqb].
      rewrite bind_lift. cbn [get_field assoc String.eqb Ascii.eqb Bool.eqb truthy].
      rewrite bind_lift. cbn [array_findIndex]. rewrite Hk. cbn. by rewrite Hfound. }
    split; [done|]. rewrite Hrun, <- existsb_exists. split; congruence.
Qed.

Lemma isPinned_scenario :
  (isPinned (pinning [VStr "ID1"; VStr "ID2"]) (VStr "ID1") (World ∅ [])).1 = Ok true
  /\ (isPinned (pinning [VStr "ID2"; VStr "ID3"]) (VStr "ID1") (World ∅ [])).1 = Ok false.
Proof.
  split.
  - exact (proj1 (proj2 (proj2 (isPinned_among_pinned
             (pinning [VStr "ID1"; VStr "ID2"]) (VStr "ID1") (World ∅ []) _ eq_refl))
             [VStr "ID1"; VStr "ID2"] eq_refl)).
  - exact (proj1 (proj2 (proj2 (isPinned_among_pinned
             (pinning [VStr "ID2"; VStr "ID3"]) (VStr "ID1") (World ∅ []) _ eq_refl))
             [VStr "ID2"; VStr "ID3"] eq_refl)).
Defined.

(** *** [createNewIssue] *)

Lemma fresh_loc_unused (h : gmap loc (gmap string value)) : h !! fresh (dom h) = None.
Proof. apply not_elem_of_dom, is_fresh. Qed.

Lemma createNewIssue_world (rt : runtime) (ext : collaborators)
    (options : loc) (w : world) (o : gmap string value) :
  heap w !! options = Some o ->
  (createNewIssue rt ext options w).2
  = World (<[fresh (dom (heap w)) := kept o]> (heap w))
          (trace w ++ [Request (issues_create
             (prop (kept o) "title") (prop (kept o) "labels")
             (prop (kept o) "assignees") (prop (kept o) "body"))]).
Proof.
  intros Hoptions. unfold createNewIssue. rewrite bind_unfold.
  unfold Object_assign_new at 1. rewrite (deref_Some _ _ _ Hoptions).
  rewrite bind_unfold.
  erewrite removeEmptyProps_run by (cbn [heap]; apply lookup_insert_eq).
  cbn [heap trace]. rewrite insert_insert_eq.
  rewrite !bind_get.
  erewrite !deref_Some by (cbn [heap]; apply lookup_insert_eq).
  rewrite bind_call. cbn [heap trace].
  destruct (ext _ _) as [response|e]; [|done].
  by rewrite silent_world by silence.
Qed.

(** The node id that [createNewIssue] returns is the one in the answer to
    its request. *)
Lemma createNewIssue_Ok (rt : runtime) (ext : collaborators)
    (options : loc) (w w' : world) (o : gmap string value) (created : new_issue) :
  heap w !! options = Some o ->
  createNewIssue rt ext options w = (Ok created, w') ->
  exists response : value,
    ext (trace w) (issues_create (prop (kept o) "title") (prop (kept o) "labels")
                                 (prop (kept o) "assignees") (prop (kept o) "body"))
    = Ok response
    /\ (get_field (if truthy response then response else VObj []) "data"
        ≫= fun data => get_field data "node_id") = Ok (newIssueNodeId created).
Proof.
  intros Hoptions. unfold createNewIssue. rewrite bind_unfold.
  unfold Object_assign_new at 1. rewrite (deref_Some _ _ _ Hoptions).
  rewrite bind_unfold.
  erewrite removeEmptyProps_run by (cbn [heap]; apply lookup_insert_eq).
  cbn [heap trace]. rewrite insert_insert_eq.
  rewrite !bind_get.
  erewrite !deref_Some by (cbn [heap]; apply lookup_insert_eq).
  rewrite bind_call. cbn [heap trace].
  destruct (ext _ _) as [response|e]; [|done].
  cbv zeta. intros Hrest. exists response. split; [done|].
  rewrite bind_lift in Hrest.
  destruct (get_field (if truthy response then response else VObj []) "data")
    as [data|e]; [|done].
  cbn [mbind result_bind] in *. unfold destructure in Hrest.
  destruct (nullish data); [done|].
  rewrite !bind_lift in Hrest.
  destruct (get_field data "number"); [|done].
  destruct (get_field data "id"); [|done].
  destruct (get_field data "node_id"); [|done].
  by injection Hrest as <- _.
Qed.

(** C10. [createNewIssue] leaves the record it is given as it was, whether
    the request succeeds or not: the fields it strips are those of a copy,
    a new record of the store, and the request carries the fields of that
    stripped copy. *)
Theorem createNewIssue_keeps_options (rt : runtime) (ext : collaborators)
    (options : loc) (w : world) (o : gmap string value) :
  heap w !! options = Some o ->
  let w' := (createNewIssue rt ext options w).2 in
  heap w' !! options = Some o
  /\ (exists copy : loc,
        heap w !! copy = None /\ heap w' = <[copy := kept o]> (heap w))
  /\ events_of (createNewIssue rt ext options) w
     = [Request (issues_create (prop (kept o) "title") (prop (kept o) "labels")
                               (prop (kept o) "assignees") (prop (kept o) "body"))].
Proof.
  intros Hoptions w'. subst w'.
  pose proof (fresh_loc_unused (heap w)) as Hfresh.
  rewrite (createNewIssue_world rt ext options w o Hoptions). cbn [heap].
  split; [|split].
  - rewrite lookup_insert_ne; [done|]. intros Heq. congruence.
  - by exists (fresh (dom (heap w))).
  - unfold events_of. rewrite (createNewIssue_world rt ext options w o Hoptions).
    cbn [trace]. by rewrite drop_app_length.
Qed.

Lemma createNewIssue_sparse_record :
  heap (createNewIssue integer_runtime mute 1 (store_of sparse_record)).2 !! 1%positive
  = Some sparse_record.
Proof.
  exact (proj1 (createNewIssue_keeps_options integer_runtime mute 1
                  (store_of sparse_record) sparse_record eq_refl)).
Defined.

(* ===================================================================== *)
(** ** Proofs: the previous-issue lookup *)
(* ===================================================================== *)

Lemma getPreviousIssue_world (rt : runtime) (ext : collaborators) (labels : value)
    (w : world) :
  (getPreviousIssue rt ext labels w).2
  = World (heap w) (trace w ++ [Request (issues_listForRepo labels)]).
Proof.
  unfold getPreviousIssue. rewrite bind_call.
  destruct (ext _ _) as [response|e]; [|done].
  by rewrite silent_world by silence.
Qed.

(** The events of the [try] block: the lookup, when the flags ask for it,
    and then no other lookup. *)
Lemma run_body_lookup (rt : runtime) (ext : collaborators) (inputs : loc) (w : world) :
  exists rest : list event,
    Forall (fun e => not_lookup e = true) rest
    /\ events_of (run_body rt ext inputs) w =
       ((if needPreviousIssue (lookup_flags (deref w inputs))
         then [Request (issues_listForRepo (prop (deref w inputs) "labels"))]
         else []) ++ rest)%list.
Proof.
  unfold events_of, run_body. rewrite !bind_get.
  fold (lookup_flags (deref w inputs)).
  lazymatch goal with
  | |- context [mbind ?K (if _ then _ else _)] => set (rest_of_run := K)
  end.
  assert (Hrest : forall previous, obeys (only not_lookup) (rest_of_run previous))
    by (intros previous; subst rest_of_run; obey).
  destruct (needPreviousIssue (lookup_flags (deref w inputs))).
  - rewrite bind_unfold, bind_get.
    pose proof (getPreviousIssue_world rt ext (prop (deref w inputs) "labels") w) as Hw1.
    destruct (getPreviousIssue rt ext _ w) as [[previous|e] w1]; cbn [snd] in Hw1; subst w1.
    + destruct (Hrest previous (World (heap w)
        (trace w ++ [Request (issues_listForRepo (prop (deref w inputs) "labels"))])))
        as (rest & -> & Hrest').
      exists rest. split; [done|]. cbn [trace]. by rewrite <- app_assoc, drop_app_length.
    + exists []. split; [constructor|]. cbn [snd trace]. by rewrite drop_app_length.
  - rewrite bind_ret.
    lazymatch goal with
    | |- context [rest_of_run ?previous w] =>
        destruct (Hrest previous w) as (rest & -> & Hrest')
    end.
    exists rest. split; [done|]. by rewrite drop_app_length.
Qed.

Lemma run_lookup (rt : runtime) (ext : collaborators) (inputs : loc) (w : world) :
  exists rest : list event,
    Forall (fun e => not_lookup e = true) rest
    /\ events_of (run rt ext inputs) w =
       ((if needPreviousIssue (lookup_flags (deref w inputs))
         then [Request (issues_listForRepo (prop (deref w inputs) "labels"))]
         else []) ++ rest)%list.
Proof.
  destruct (run_body_lookup rt ext inputs w) as (rest & Hrest & Hevents).
  rewrite run_events, Hevents. destruct (run_body rt ext inputs w).1 as [[]|e].
  - by exists rest.
  - exists (rest ++ [SetFailed (failure_message e)])%list. split.
    + apply Forall_app. split; [done | by repeat constructor].
    + by rewrite app_assoc.
Qed.

Lemma not_lookup_In (rest : list event) (labels : value) :
  Forall (fun e => not_lookup e = true) rest ->
  ~ In (Request (issues_listForRepo labels)) rest.
Proof.
  rewrite Forall_forall. intros Hrest Hin%list_elem_of_In. by apply Hrest in Hin.
Qed.

Lemma boolean_flags_set (flags : list value) :
  Forall (fun v => exists b : bool, v = VBool b) flags ->
  (Exists (fun v => truthy v = true) flags <-> In (VBool true) flags).
Proof.
  induction 1 as [|v flags [b ->] _ IH]; [by rewrite Exists_nil|].
  rewrite Exists_cons, IH. simpl.
  destruct b; split; intros [?|?]; auto; discriminate.
Qed.

(** C7. [run] asks for the previous issue if and only if one of the flags
    [pinned], [closePrevious], [rotateAssignees], [linkedComments] is set,
    that is, is [true]; for boolean flags this is to say that one of them is
    truthy. When it asks, it asks first of all, once, with the labels of the
    inputs; when the four flags are [false] it never asks. *)
Theorem run_looks_up_iff_flagged (rt : runtime) (ext : collaborators)
    (inputs : loc) (w : world) :
  let flags := lookup_flags (deref w inputs) in
  ((exists labels, In (Request (issues_listForRepo labels))
                      (events_of (run rt ext inputs) w))
   <-> In (VBool true) flags)
  /\ (Forall (fun v => exists b : bool, v = VBool b) flags ->
      ((exists labels, In (Request (issues_listForRepo labels))
                          (events_of (run rt ext inputs) w))
       <-> Exists (fun v => truthy v = true) flags))
  /\ (In (VBool true) flags ->
      exists rest,
        events_of (run rt ext inputs) w
        = Request (issues_listForRepo (prop (deref w inputs) "labels")) :: rest
        /\ Forall (fun e => is_lookup e = false) rest)
  /\ (flags = [VBool false; VBool false; VBool false; VBool false] ->
      Forall (fun e => is_lookup e = false) (events_of (run rt ext inputs) w)).
Proof.
  intros flags. destruct (run_lookup rt ext inputs w) as (rest & Hrest & Hevents).
  fold flags in Hevents. rewrite <- needPreviousIssue_In.
  assert (Hrest' : Forall (fun e => is_lookup e = false) rest).
  { eapply Forall_impl; [exact Hrest|]. intros e. apply negb_true_iff. }
  assert (Hiff : (exists labels, In (Request (issues_listForRepo labels))
                                    (events_of (run rt ext inputs) w))
                 <-> needPreviousIssue flags = true).
  { rewrite Hevents. destruct (needPreviousIssue flags).
    - split; [done|]. intros _. eexists. by left.
    - split; [|done]. intros [labels Hin]. by apply not_lookup_In in Hin. }
  split; [done|]. split.
  { intros Hbooleans. by rewrite Hiff, needPreviousIssue_In, boolean_flags_set. }
  destruct (needPreviousIssue flags) eqn:Hneed; rewrite Hevents.
  - split.
    + intros _. by exists rest.
    + intros Hflags. by rewrite Hflags in Hneed.
  - by split.
Qed.

(** C9. [needPreviousIssue] answers [true] if and only if one of its
    arguments is the boolean [true]; the truthy ['true'] and [1] do not
    count, and a run none of whose flags is the boolean [true] never asks
    for the previous issue. *)
Theorem needPreviousIssue_only_true (rt : runtime) (ext : collaborators)
    (inputs : loc) (w : world) (conditions : list value) :
  (needPreviousIssue conditions = true <-> In (VBool true) conditions)
  /\ (truthy (VStr "true") = true /\ truthy (VInt 1) = true
      /\ needPreviousIssue [VStr "true"; VInt 1; VStr "true"; VInt 1] = false)
  /\ (~ In (VBool true) (lookup_flags (deref w inputs)) ->
      Forall (fun e => is_lookup e = false) (events_of (run rt ext inputs) w)).
Proof.
  split; [apply needPreviousIssue_In|]. split; [done|].
  rewrite <- needPreviousIssue_In. intros Hflags.
  destruct (run_lookup rt ext inputs w) as (rest & Hrest & Hevents).
  rewrite Hevents. destruct (needPreviousIssue _); [done|]. simpl.
  eapply Forall_impl; [exact Hrest|]. intros e. apply negb_true_iff.
Qed.

Lemma run_skips_lookup_on_truthy_flags :
  Forall (fun e => is_lookup e = false)
         (events_of (run integer_runtime mute 1) (store_of truthy_flags)).
Proof.
  apply (proj2 (proj2 (needPreviousIssue_only_true integer_runtime mute 1
                         (store_of truthy_flags) []))).
  vm_compute. intuition discriminate.
Defined.

(* ===================================================================== *)
(** ** Proofs: closing and re-pinning the series *)
(* ===================================================================== *)

Lemma same_flags_refl (inputs : loc) (w : world) : same_flags inputs w w.
Proof. by intros key _ _. Qed.

Lemma same_flags_trans (inputs : loc) (w1 w2 w3 : world) :
  same_flags inputs w1 w2 -> same_flags inputs w2 w3 -> same_flags inputs w1 w3.
Proof. intros H12 H23 key Ha Hb. by rewrite H23, H12. Qed.

Lemma same_flags_heap (inputs : loc) (w w' : world) :
  heap w' = heap w -> same_flags inputs w w'.
Proof. intros Hheap key _ _. unfold deref. by rewrite Hheap. Qed.

Section KeepsFlags.
Context (inputs : loc).

Lemma keeps_unchanged {A} (m : M A) :
  (forall w, heap (m w).2 = heap w) -> keeps_flags inputs m.
Proof. intros Hm w. by apply same_flags_heap. Qed.

Lemma keeps_ret {A} (a : A) : keeps_flags inputs (mret a).
Proof. by apply keeps_unchanged. Qed.

Lemma keeps_lift {A} (r : result A) : keeps_flags inputs (lift r).
Proof. by apply keeps_unchanged. Qed.

Lemma keeps_get (obj : loc) (key : string) : keeps_flags inputs (get obj key).
Proof. by apply keeps_unchanged. Qed.

Lemma keeps_call (ext : collaborators) (r : request) : keeps_flags inputs (call ext r).
Proof. by apply keeps_unchanged. Qed.

Lemma keeps_emit (e : event) : keeps_flags inputs (emit e).
Proof. by apply keeps_unchanged. Qed.

Lemma keeps_set (obj : loc) (field : string) (v : value) :
  field = "assignees" \/ field = "body" -> keeps_flags inputs (set obj field v).
Proof.
  intros Hfield w key Ha Hb. unfold set, deref, prop. cbn [snd heap].
  destruct (decide (obj = inputs)) as [->|Hne].
  - rewrite lookup_insert_eq. cbn [default from_option id].
    rewrite lookup_insert_ne; [done|]. intros <-. by destruct Hfield.
  - by rewrite lookup_insert_ne.
Qed.

Lemma keeps_bind {A B} (m : M A) (k : A -> M B) :
  keeps_flags inputs m -> (forall a, keeps_flags inputs (k a)) ->
  keeps_flags inputs (m ≫= k).
Proof.
  intros Hm Hk w. rewrite bind_unfold. specialize (Hm w).
  destruct (m w) as [[a|e] w1]; [|done].
  eapply same_flags_trans; [exact Hm | apply Hk].
Qed.

Lemma keeps_if {A} (b : bool) (m1 m2 : M A) :
  keeps_flags inputs m1 -> keeps_flags inputs m2 ->
  keeps_flags inputs (if b then m1 else m2).
Proof. by destruct b. Qed.
End KeepsFlags.

Ltac keep_step :=
  lazymatch goal with
  | |- forall _, _ => intros ?
  | |- keeps_flags _ (mbind _ _) => apply keeps_bind
  | |- keeps_flags _ (mret _) => apply keeps_ret
  | |- keeps_flags _ (lift _) => apply keeps_lift
  | |- keeps_flags _ (get _ _) => apply keeps_get
  | |- keeps_flags _ (call _ _) => apply keeps_call
  | |- keeps_flags _ (emit _) => apply keeps_emit
  | |- keeps_flags _ (set _ _ _) => apply keeps_set; auto
  | |- keeps_flags _ (if _ then _ else _) => apply keeps_if
  | |- keeps_flags _ (makeLinkedComments _ _ _ _) => unfold makeLinkedComments
  | |- keeps_flags _ (addIssueToProjectColumn _ _ _ _ _) => unfold addIssueToProjectColumn
  | |- keeps_flags _ (addIssueToMilestone _ _ _) => unfold addIssueToMilestone
  end.

Ltac keep := repeat first [keep_step | progress cbv beta zeta].

(** *** Reading a run that ended normally, step by step *)

Lemma bind_Ok {A B} (m : M A) (k : A -> M B) (w w' : world) (b : B) :
  (m ≫= k) w = (Ok b, w') ->
  exists a w1, m w = (Ok a, w1) /\ k a w1 = (Ok b, w').
Proof.
  rewrite bind_unfold. destruct (m w) as [[a|e] w1]; [|done]. intros Hk. by exists a, w1.
Qed.

Lemma call_Ok (ext : collaborators) (r : request) (w w' : world) (v : value) :
  call ext r w = (Ok v, w') ->
  ext (trace w) r = Ok v /\ w' = World (heap w) (trace w ++ [Request r]).
Proof. unfold call. by intros [= -> <-]. Qed.

Lemma block_Ok (P : event -> bool) (inputs : loc) {A} (m : M A) (w w' : world) (a : A) :
  obeys (only P) m -> keeps_flags inputs m ->
  m w = (Ok a, w') ->
  exists evs : list event,
    trace w' = (trace w ++ evs)%list
    /\ Forall (fun e => P e = true) evs
    /\ same_flags inputs w w'.
Proof.
  intros Hobeys Hkeeps Hm. destruct (Hobeys w) as (evs & Htrace & Hevs).
  specialize (Hkeeps w). rewrite Hm in *. by exists evs.
Qed.

Section Series.
Context (rt : runtime) (ext : collaborators).

Lemma isPinned_world (issueId : value) (w : world) :
  (isPinned ext issueId w).2
  = World (heap w) (trace w ++ [Request (graphql_pinnedIssues 3)]).
Proof.
  unfold isPinned. rewrite bind_call. destruct (ext _ _) as [data|e]; [|done].
  by rewrite silent_world by silence.
Qed.

(** The answer of [isPinned] depends on the trace alone. *)
Lemma isPinned_store (issueId : value) (w : world) (store : gmap loc (gmap string value)) :
  (isPinned ext issueId (World store (trace w))).1 = (isPinned ext issueId w).1.
Proof.
  unfold isPinned. rewrite !bind_call. cbn [trace].
  destruct (ext _ _) as [data|e]; [|done].
  rewrite !bind_lift. destruct (get_field data "resource") as [resource|e]; [|done].
  destruct (negb (truthy resource)); [done|].
  rewrite !bind_lift. destruct (get_field resource "pinnedIssues") as [pinned|e]; [|done].
  rewrite !bind_lift. destruct (get_field pinned "nodes") as [nodes|e]; [|done].
  cbv zeta. rewrite !bind_lift. by destruct (array_findIndex _ _).
Qed.

Lemma createNewIssue_keeps_flags (inputs : loc) (w : world) (o : gmap string value) :
  heap w !! inputs = Some o ->
  same_flags inputs w (createNewIssue rt ext inputs w).2.
Proof.
  intros Hinputs key _ _. rewrite (createNewIssue_world rt ext inputs w o Hinputs).
  unfold deref. cbn [heap]. rewrite lookup_insert_ne; [done|].
  intros Heq. pose proof (fresh_loc_unused (heap w)) as Hfresh. congruence.
Qed.

Lemma set_Ok (obj : loc) (key : string) (v : value) (w w' : world) :
  set obj key v w = (Ok tt, w') ->
  heap w' !! obj = Some (<[key := v]> (deref w obj))
  /\ trace w' = trace w
  /\ (key = "assignees" \/ key = "body" -> forall inputs, same_flags inputs w w').
Proof.
  intros Hset. split; [|split].
  - injection Hset as <-. apply lookup_insert_eq.
  - by injection Hset as <-.
  - intros Hkey inputs. pose proof (keeps_set inputs obj key v Hkey w) as Hkeeps.
    by rewrite Hset in Hkeeps.
Qed.

Lemma quiet_run_body (inputs : loc) (w : world) :
  Forall (fun e => not_failure e = true) (events_of (run rt ext inputs) w) ->
  exists w', run_body rt ext inputs w = (Ok tt, w').
Proof.
  rewrite run_events.
  destruct (run_body rt ext inputs w) as [[[]|e] w'] eqn:Hbody; [by eexists|].
  cbn [fst]. intros [_ Hlast]%Forall_app. by inversion Hlast.
Qed.

(** C6. In a run that reports no failure, with [closePrevious] and [pinned]
    set and a previous issue found, the requests that close and re-pin are
    exactly, in this order: close the previous issue (by number), query the
    pinned issues and unpin the previous issue (by node id) if it is among
    them, pin the new issue (by node id). *)
Theorem run_closes_unpins_pins (inputs : loc) (w : world) (previous : previous_issue) :
  let record := deref w inputs in
  needPreviousIssue (lookup_flags record) = true ->
  truthy (prop record "closePrevious") = true ->
  truthy (prop record "pinned") = true ->
  (getPreviousIssue rt ext (prop record "labels") w).1 = Ok previous ->
  issueExists rt (previousIssueNumber previous) = true ->
  Forall (fun e => not_failure e = true) (events_of (run rt ext inputs) w) ->
  hands_over rt ext (trace w) previous (events_of (run rt ext inputs) w).
Proof.
  intros record Hneed Hclose Hpin Hprev Hexists Hquiet. unfold hands_over.
  set (close := Request (issues_update_state (previousIssueNumber previous) "closed")).
  destruct (quiet_run_body inputs w Hquiet) as [w' Hbody].
  rewrite run_events. unfold events_of. rewrite Hbody. cbn [fst snd]. clear Hquiet.
  unfold run_body in Hbody. rewrite !bind_get in Hbody.
  fold record in Hbody. fold (lookup_flags record) in Hbody. rewrite Hneed in Hbody.
  apply bind_Ok in Hbody as (previous' & w1 & Hlookup & Hbody).
  rewrite bind_get in Hlookup. fold record in Hlookup.
  pose proof (getPreviousIssue_world rt ext (prop record "labels") w) as Hw1.
  rewrite Hlookup in Hprev, Hw1. cbn [fst snd] in Hprev, Hw1.
  injection Hprev as ->. subst w1. clear Hlookup.
  set (lookup := Request (issues_listForRepo (prop record "labels"))) in *.
  assert (Hflags1 : same_flags inputs w (World (heap w) (trace w ++ [lookup])))
    by (by apply same_flags_heap).
  remember (World (heap w) (trace w ++ [lookup])) as w1 eqn:Hw1.
  assert (Htrace1 : trace w1 = (trace w ++ [lookup])%list) by (by subst w1).
  clear Hw1.
  (* the rotation of the assignees *)
  rewrite bind_get in Hbody.
  apply bind_Ok in Hbody as ([] & w2 & Hrotate & Hbody).
  eapply (block_Ok not_series_step inputs) in Hrotate
    as (rotated & Htrace2 & Hrotated & Hflags2); [|obey|keep].
  (* the body is rendered and stored *)
  rewrite !bind_get in Hbody.
  apply bind_Ok in Hbody as (rendered & w3 & Hrender & Hbody).
  apply call_Ok in Hrender as [_ Hw3].
  set (render := Request (handlebars_render _ _ _)) in Hw3.
  assert (Hflags3 : same_flags inputs w2 w3) by (subst w3; by apply same_flags_heap).
  assert (Htrace3 : trace w3 = (trace w2 ++ [render])%list) by (by subst w3).
  clear Hw3.
  apply bind_Ok in Hbody as ([] & w4 & Hset & Hbody).
  apply set_Ok in Hset as (Hinputs4 & Htrace4 & Hflags4).
  specialize (Hflags4 (or_intror eq_refl) inputs).
  (* the new issue *)
  apply bind_Ok in Hbody as (created & w5 & Hcreate & Hbody).
  pose proof (createNewIssue_keeps_flags inputs w4 _ Hinputs4) as Hflags5.
  pose proof (createNewIssue_world rt ext inputs w4 _ Hinputs4) as Hworld5.
  destruct (createNewIssue_Ok rt ext inputs w4 w5 _ created Hinputs4 Hcreate)
    as (response & Hresponse & Hnode).
  rewrite Hcreate in Hflags5, Hworld5. cbn [snd] in Hflags5, Hworld5.
  set (create := issues_create _ _ _ _) in Hworld5, Hresponse.
  assert (Htrace5 : trace w5 = (trace w4 ++ [Request create])%list) by (by subst w5).
  clear Hworld5 Hcreate.
  (* the project column, the milestone and the linked comments *)
  rewrite !bind_get in Hbody.
  apply bind_Ok in Hbody as ([] & w6 & Hproject & Hbody).
  eapply (block_Ok not_series_step inputs) in Hproject
    as (filed & Htrace6 & Hfiled & Hflags6); [|obey|keep].
  rewrite bind_get in Hbody.
  apply bind_Ok in Hbody as ([] & w7 & Hmilestone & Hbody).
  eapply (block_Ok not_series_step inputs) in Hmilestone
    as (scheduled & Htrace7 & Hscheduled & Hflags7); [|obey|keep].
  rewrite bind_get in Hbody.
  apply bind_Ok in Hbody as ([] & w8 & Hlinked & Hbody).
  eapply (block_Ok not_series_step inputs) in Hlinked
    as (linked & Htrace8 & Hlinked & Hflags8); [|obey|keep].
  assert (Hflags : same_flags inputs w w8).
  { repeat (eapply same_flags_trans; [eassumption|]). apply same_flags_refl. }
  set (before := ([lookup] ++ rotated ++ [render; Request create]
                  ++ filed ++ scheduled ++ linked)%list).
  assert (Htrace : trace w8 = (trace w ++ before)%list).
  { rewrite Htrace8, Htrace7, Htrace6, Htrace5, Htrace4, Htrace3, Htrace2, Htrace1.
    subst before. by rewrite <- !app_assoc. }
  assert (Hbefore : Forall (fun e => is_series_step e = false) before).
  { subst before. repeat (apply Forall_app; split); try by repeat constructor.
    all: eapply Forall_impl; [eassumption|]; intros e; apply negb_true_iff. }
  clear Hflags1 Hflags2 Hflags3 Hflags4 Hflags5 Hflags6 Hflags7 Hflags8.
  (* the previous issue is closed *)
  rewrite bind_get, (Hflags "closePrevious") in Hbody by done.
  fold record in Hbody. rewrite Hexists, Hclose in Hbody. cbn [andb] in Hbody.
  apply bind_Ok in Hbody as ([] & w12 & Hseries & Hbody).
  apply bind_Ok in Hseries as (closed & w9 & Hclosed & Hseries).
  apply call_Ok in Hclosed as [_ ->]. fold close in Hseries.
  rewrite bind_get in Hseries.
  change (deref (World (heap w8) _) inputs) with (deref w8 inputs) in Hseries.
  rewrite (Hflags "pinned") in Hseries by done.
  fold record in Hseries. rewrite Hpin in Hseries.
  (* it is unpinned, if pinned, and the new issue is pinned *)
  apply bind_Ok in Hseries as (unpinned & w10 & Hunpin & Hseries).
  apply bind_Ok in Hunpin as (pinned_now & w9' & HisPinned & Hunpin).
  pose proof (isPinned_world (previousIssueNodeId previous)
                (World (heap w8) (trace w8 ++ [close]))) as Hw9'.
  rewrite HisPinned in Hw9'. cbn [snd heap trace] in Hw9'. subst w9'.
  apply bind_Ok in Hseries as (pinned & w11 & Hpinned & Hseries).
  apply call_Ok in Hpinned as [_ ->].
  injection Hseries as <-.
  exists before,
    (if truthy (newIssueNumber created)
     then [SetOutput "issue-number" (ToString rt (newIssueNumber created))]
     else []),
    pinned_now, (newIssueNodeId created).
  split; [|split; [done|split; [|split]]].
  - assert (Hw10 : trace w10 =
      (trace w ++ before ++ [close; Request (graphql_pinnedIssues 3)]
       ++ (if pinned_now
           then [Request (graphql_unpinIssue (ToString rt (previousIssueNodeId previous)))]
           else []))%list).
    { destruct pinned_now; cbn [negb] in Hunpin.
      - apply call_Ok in Hunpin as [_ ->]. cbn [trace].
        rewrite Htrace. by rewrite <- !app_assoc.
      - injection Hunpin as _ <-. cbn [trace].
        rewrite Htrace. by rewrite <- !app_assoc. }
    destruct (truthy (newIssueNumber created)).
    + injection Hbody as <-. cbn [trace]. rewrite Hw10.
      rewrite <- !app_assoc. by rewrite drop_app_length.
    + injection Hbody as <-. cbn [trace]. rewrite Hw10.
      rewrite <- !app_assoc. rewrite drop_app_length. by rewrite app_nil_r.
  - by destruct (truthy (newIssueNumber created)); repeat constructor.
  - intros store. rewrite app_assoc, <- Htrace.
    pose proof (isPinned_store (previousIssueNodeId previous)
                  (World (heap w8) (trace w8 ++ [close])) store) as Hstore.
    cbn [trace] in Hstore. by rewrite Hstore, HisPinned.
  - exists ([lookup] ++ rotated ++ [render])%list, (filed ++ scheduled ++ linked)%list.
    eexists _, _, _, _, response. split; [|split; [|exact Hnode]].
    + subst before create. by rewrite <- !app_assoc.
    + rewrite <- Hresponse. f_equal.
      rewrite Htrace4, Htrace3, Htrace2, Htrace1. by rewrite <- !app_assoc.
Qed.

(** Of the events of such a run, those that close and re-pin. *)
Lemma hands_over_series_steps (h : list event) (previous : previous_issue)
    (events : list event) :
  hands_over rt ext h previous events ->
  exists (unpinned : bool) (newNode : value),
    List.filter is_series_step events =
      (Request (issues_update_state (previousIssueNumber previous) "closed")
       :: Request (graphql_pinnedIssues 3)
       :: (if unpinned
           then [Request (graphql_unpinIssue (ToString rt (previousIssueNodeId previous)))]
           else [])
       ++ [Request (graphql_pinIssue (ToString rt newNode))])%list.
Proof.
  intros (before & after & unpinned & newNode & -> & Hbefore & Hafter & _).
  exists unpinned, newNode.
  assert (Hnone : forall evs, Forall (fun e => is_series_step e = false) evs ->
                              List.filter is_series_step evs = []).
  { induction 1 as [|e evs He _ IH]; [done|]. simpl. by rewrite He. }
  rewrite !List.filter_app, (Hnone _ Hbefore), (Hnone _ Hafter), app_nil_r.
  by destruct unpinned.
Qed.
End Series.

Lemma run_series_events :
  events_of (run integer_runtime series 1) (store_of close_and_pin) =
    [Request (issues_listForRepo (VArr [VStr "recurring"]));
     Request (handlebars_render (VStr "Agenda") (VInt 10) VUndefined);
     Request (issues_create (VStr "Weekly sync") (VArr [VStr "recurring"])
                            VUndefined (VStr "Agenda"));
     Request (issues_update_state (VInt 10) "closed");
     Request (graphql_pinnedIssues 3);
     Request (graphql_unpinIssue "N10");
     Request (graphql_pinIssue "N20");
     SetOutput "issue-number" "20"].
Proof. vm_compute. reflexivity. Qed.

Lemma run_series_hands_over :
  hands_over integer_runtime series [] issue_10
             (events_of (run integer_runtime series 1) (store_of close_and_pin)).
Proof.
  apply (run_closes_unpins_pins integer_runtime series 1 (store_of close_and_pin) issue_10).
  - vm_compute. reflexivity.
  - vm_compute. reflexivity.
  - vm_compute. reflexivity.
  - vm_compute. reflexivity.
  - vm_compute. reflexivity.
  - rewrite run_series_events. repeat constructor.
Defined.


(* ===================================================================== *)
(** ** Further properties: validation and rotation *)
(* ===================================================================== *)

(** X1. What a [true] of [checkInputs] tells, and what it does not: every
    rule on the labels and on the assignees holds, in the sense that the
    value is truthy (a set flag has truthy labels, [rotateAssignees] has
    truthy assignees), whatever the title; for labels or assignees given as
    a string, truthy is to say non-empty, whereas an array is truthy even
    when it is empty. The answer is [true] whenever all the rules hold; and
    without any flag the answer is whether the title is truthy. *)
Theorem checkInputs_rules (inputs : gmap string value) :
  let set_ key := truthy (prop inputs key) in
  let flagged := set_ "pinned" || set_ "closePrevious" || set_ "linkedComments"
                 || set_ "rotateAssignees" in
  (checkInputs inputs = true ->
     (flagged = true -> set_ "labels" = true)
     /\ (set_ "rotateAssignees" = true -> set_ "assignees" = true))
  /\ (set_ "title" = true ->
      (flagged = true -> set_ "labels" = true) ->
      (set_ "rotateAssignees" = true -> set_ "assignees" = true) ->
      checkInputs inputs = true)
  /\ (flagged = false -> checkInputs inputs = set_ "title")
  /\ (checkInputs inputs = true ->
      (flagged = true -> forall s, prop inputs "labels" = VStr s -> s <> "")
      /\ (set_ "rotateAssignees" = true ->
          forall s, prop inputs "assignees" = VStr s -> s <> ""))
  /\ (forall elems, truthy (VArr elems) = true).
Proof.
  intros set_ flagged.
  assert (Hrules : checkInputs inputs = true ->
     (flagged = true -> set_ "labels" = true)
     /\ (set_ "rotateAssignees" = true -> set_ "assignees" = true)).
  { subst flagged set_. rewrite checkInputs_last_rule.
    destruct (truthy (prop inputs "pinned")), (truthy (prop inputs "closePrevious")),
             (truthy (prop inputs "linkedComments")),
             (truthy (prop inputs "rotateAssignees")),
             (truthy (prop inputs "labels")), (truthy (prop inputs "assignees"));
      simpl; intuition congruence. }
  split; [exact Hrules|]. split; [|split; [|split; [|done]]].
  - subst flagged set_. rewrite checkInputs_last_rule.
    destruct (truthy (prop inputs "pinned")), (truthy (prop inputs "closePrevious")),
             (truthy (prop inputs "linkedComments")),
             (truthy (prop inputs "rotateAssignees")),
             (truthy (prop inputs "labels")), (truthy (prop inputs "assignees")),
             (truthy (prop inputs "title")); simpl; intuition congruence.
  - subst flagged set_. rewrite checkInputs_last_rule.
    destruct (truthy (prop inputs "pinned")), (truthy (prop inputs "closePrevious")),
             (truthy (prop inputs "linkedComments")),
             (truthy (prop inputs "rotateAssignees")); simpl; congruence.
  - intros Htrue. destruct (Hrules Htrue) as [Hlabels Hassignees]. subst set_.
    split.
    + intros Hflagged s Hs ->. specialize (Hlabels Hflagged).
      cbv beta in Hlabels. by rewrite Hs in Hlabels.
    + intros Hrotate s Hs ->. specialize (Hassignees Hrotate).
      cbv beta in Hassignees. by rewrite Hs in Hassignees.
Qed.

Lemma checkInputs_rules_untitled_pinned :
  checkInputs untitled_pinned = true
  /\ truthy (prop untitled_pinned "labels") = true
  /\ (forall s, prop untitled_pinned "labels" = VStr s -> s <> "").
Proof.
  pose proof (checkInputs_rules untitled_pinned) as (Hrules & _ & _ & Hstrings & _).
  assert (Htrue : checkInputs untitled_pinned = true) by (vm_compute; reflexivity).
  split; [exact Htrue|]. split.
  - apply (Hrules Htrue). vm_compute. reflexivity.
  - apply (Hstrings Htrue). vm_compute. reflexivity.
Defined.

Lemma indexOf_from_names (names : list string) (name : string) (i : nat) (k : Z) :
  NoDup names -> names !! i = Some name ->
  indexOf_from k (VStr <$> names) (VStr name) = k + Z.of_nat i.
Proof.
  revert i k. induction names as [|n rest IH]; intros i k Hnodup Hi; [done|].
  apply NoDup_cons in Hnodup as [Hn Hrest]. cbn [fmap list_fmap indexOf_from strict_eq].
  destruct i as [|i]; simpl in Hi.
  - injection Hi as ->. rewrite String.eqb_refl. lia.
  - destruct (String.eqb n name) eqn:Heq.
    + apply String.eqb_eq in Heq as ->. destruct Hn. eapply list_elem_of_lookup_2, Hi.
    + rewrite (IH i (k + 1) Hrest Hi). lia.
Qed.

(** X2. Rotation is a round robin: over a list of distinct names, the
    assignee after the one at position [i] is the one at position
    [(i + 1) mod length], so that the last is followed by the first and
    every name gets its turn. *)
Theorem getNextAssignee_cycles (rt : runtime) (names : list string) (i : nat)
    (name : string) :
  NoDup names -> names !! i = Some name ->
  exists next : string,
    names !! (S i mod length names)%nat = Some next
    /\ getNextAssignee rt (VArr (VStr <$> names)) (VStr name) = Ok (VArr [VStr next]).
Proof.
  intros Hnodup Hi.
  assert (Hlen : (i < length names)%nat) by (by eapply lookup_lt_Some).
  assert (Hnext : (S i mod length names < length names)%nat)
    by (apply Nat.mod_upper_bound; lia).
  destruct (lookup_lt_is_Some_2 names _ Hnext) as [next Hnext'].
  exists next. split; [done|].
  cbn [getNextAssignee]. unfold indexOf. rewrite (indexOf_from_names names name i 0 Hnodup Hi).
  rewrite length_fmap. unfold js_rem.
  destruct (decide (Z.of_nat (length names) = 0)) as [?|_]; [lia|].
  rewrite Z.rem_mod_nonneg by lia.
  replace (0 + Z.of_nat i + 1) with (Z.of_nat (S i)) by lia.
  rewrite <- Nat2Z.inj_mod, Nat2Z.id.
  do 3 f_equal. apply nth_lookup_Some. by rewrite list_lookup_fmap, Hnext'.
Qed.

Lemma getNextAssignee_after_carol :
  getNextAssignee integer_runtime (VArr (VStr <$> three_names)) (VStr "carol")
  = Ok (VArr [VStr "alice"]).
Proof.
  destruct (getNextAssignee_cycles integer_runtime three_names 2 "carol")
    as (next & Hnext & Hrun).
  - repeat constructor; set_solver.
  - reflexivity.
  - injection Hnext as <-. exact Hrun.
Defined.

Lemma string_get_lt (s : string) (n : nat) :
  (n < String.length s)%nat -> exists c, String.get n s = Some c.
Proof.
  revert n. induction s as [|c s IH]; intros n Hn; simpl in *; [lia|].
  destruct n as [|n]; [by exists c|]. apply IH. lia.
Qed.

Lemma string_indexOf_lower (s t : string) : -1 <= string_indexOf s t.
Proof. unfold string_indexOf. destruct (String.index 0 t s); lia. Qed.

(** X3. [getNextAssignee] never throws on an array or on a string, and
    throws a TypeError on anything else. Its answer is always a one-element
    array: a member of a non-empty array, one character of a non-empty
    string, and [undefined] when the array or the string is empty (the index
    is then [NaN]). *)
Theorem getNextAssignee_answers (rt : runtime) (assignees previousAssignee : value) :
  match assignees with
  | VArr [] | VStr "" =>
      getNextAssignee rt assignees previousAssignee = Ok (VArr [VUndefined])
  | VArr elems =>
      exists x, In x elems
                /\ getNextAssignee rt assignees previousAssignee = Ok (VArr [x])
  | VStr s =>
      exists (n : nat) (c : Ascii.ascii),
        String.get n s = Some c
        /\ getNextAssignee rt assignees previousAssignee = Ok (VArr [VStr (String c "")])
  | _ =>
      exists message,
        getNextAssignee rt assignees previousAssignee = Throw (TypeError message)
  end.
Proof.
  destruct assignees as [| |b|n|s|elems|props]; try by eexists.
  - destruct s as [|c s]; [done|].
    set (str := String c s).
    assert (Hlen : 0 < string_length str) by (unfold string_length; simpl; lia).
    pose proof (string_indexOf_lower str (ToString rt previousAssignee)) as Hlow.
    cbn [getNextAssignee]. fold str. unfold js_rem.
    destruct (decide (string_length str = 0)) as [?|_]; [lia|].
    set (i := Z.rem _ _).
    assert (Hi : 0 <= i < string_length str).
    { subst i. rewrite Z.rem_mod_nonneg by lia. apply Z.mod_pos_bound. lia. }
    destruct (string_get_lt str (Z.to_nat i)) as [c' Hc'].
    { unfold string_length in Hi. lia. }
    exists (Z.to_nat i), c'. by rewrite Hc'.
  - destruct elems as [|a rest]; [done|].
    set (A := a :: rest).
    assert (Hlen : 0 < Z.of_nat (length A)) by (simpl; lia).
    cbn [getNextAssignee]. fold A. unfold js_rem.
    destruct (decide (Z.of_nat (length A) = 0)) as [?|_]; [lia|].
    set (i := Z.rem _ _).
    assert (Hi : 0 <= i < Z.of_nat (length A)).
    { subst i. destruct (indexOf_from_range A previousAssignee 0) as [H|H];
        unfold indexOf; rewrite Z.rem_mod_nonneg by lia; apply Z.mod_pos_bound; lia. }
    exists (nth (Z.to_nat i) A VUndefined). split; [|done].
    apply nth_In. lia.
Qed.

(* ===================================================================== *)
(** ** Further properties: the records of the store *)
(* ===================================================================== *)

Lemma kept_idempotent (o : gmap string value) : kept (kept o) = kept o.
Proof.
  apply map_eq. intros key. rewrite !kept_lookup.
  destruct (o !! key) as [v|]; [|done].
  destruct (is_empty_prop v) eqn:Hv; [done | by rewrite Hv].
Qed.

(** X20. Stripping is idempotent: [removeEmptyProps] applied to its own
    result changes nothing more. *)
Theorem removeEmptyProps_idempotent (obj : loc) (w : world) (o : gmap string value) :
  heap w !! obj = Some o ->
  (removeEmptyProps obj ≫= removeEmptyProps) w = removeEmptyProps obj w.
Proof.
  intros Hobj. rewrite bind_unfold, (removeEmptyProps_run obj w o Hobj).
  erewrite removeEmptyProps_run by (cbn [heap]; apply lookup_insert_eq).
  cbn [heap trace]. by rewrite insert_insert_eq, kept_idempotent.
Qed.

Lemma removeEmptyProps_twice_sparse_record :
  (removeEmptyProps 1 ≫= removeEmptyProps) (store_of sparse_record)
  = (Ok 1%positive, store_of {["b" := VStr "x"]}).
Proof.
  rewrite (removeEmptyProps_idempotent 1 (store_of sparse_record) sparse_record eq_refl).
  vm_compute. reflexivity.
Defined.

(* ===================================================================== *)
(** ** Further properties: pinning and linking *)
(* ===================================================================== *)

Section Pinning.
Context (rt : runtime) (ext : collaborators).

Lemma isPinned_listed (issueId : value) (w : world) (ids : list value) :
  ext (trace w) (graphql_pinnedIssues 3) = Ok (pinned_response (Some ids)) ->
  isPinned ext issueId w
  = (Ok (existsb (fun id => strict_eq id issueId) ids),
     World (heap w) (trace w ++ [Request (graphql_pinnedIssues 3)])).
Proof.
  intros Hdata. unfold isPinned. rewrite bind_call, Hdata.
  destruct (findIndex_pinned issueId ids 0) as (k & Hk & Hfound); [done|].
  rewrite bind_lift. cbn [pinned_response get_field assoc String.eqb Ascii.eqb Bool.eqb].
  cbn [truthy negb]. rewrite bind_lift. cbn [get_field assoc String.eqb Ascii.eqb Bool.eqb].
  rewrite bind_lift. cbn [get_field assoc String.eqb Ascii.eqb Bool.eqb truthy].
  rewrite bind_lift. cbn [array_findIndex]. rewrite Hk. cbn. by rewrite Hfound.
Qed.

(** X4. [isPinned] at the edges of an answer: when the resource has pinned
    issues but no list of nodes, the answer is [false] (the list defaults to
    the empty one); when the resource is not a repository, so that it has no
    pinned issues at all, [isPinned] throws a TypeError instead of answering
    [false]. *)
Theorem isPinned_edges (issueId : value) (w : world) (data resource pinned : value) :
  ext (trace w) (graphql_pinnedIssues 3) = Ok data ->
  get_field data "resource" = Ok resource ->
  truthy resource = true ->
  get_field resource "pinnedIssues" = Ok pinned ->
  (nullish pinned = true ->
     exists message, (isPinned ext issueId w).1 = Throw (TypeError message))
  /\ (forall nodes, get_field pinned "nodes" = Ok nodes -> truthy nodes = false ->
        (isPinned ext issueId w).1 = Ok false).
Proof.
  intros Hdata Hresource Htruthy Hpinned. split.
  - intros Hnullish. unfold isPinned.
    rewrite bind_call, Hdata, bind_lift, Hresource, Htruthy. cbn [negb].
    rewrite bind_lift, Hpinned, bind_lift.
    destruct pinned; try discriminate; by eexists.
  - intros nodes Hnodes Hfalsy. unfold isPinned.
    rewrite bind_call, Hdata, bind_lift, Hresource, Htruthy. cbn [negb].
    by rewrite bind_lift, Hpinned, bind_lift, Hnodes, Hfalsy.
Qed.

(** X5. [unpin] asks which issues are pinned and sends the unpin mutation
    only when the issue is among them; otherwise the query is its only
    request and it answers [undefined]. *)
Theorem unpin_only_pinned (issueId : value) (w : world) (ids : list value) :
  ext (trace w) (graphql_pinnedIssues 3) = Ok (pinned_response (Some ids)) ->
  let mutation := Request (graphql_unpinIssue (ToString rt issueId)) in
  events_of (unpin rt ext issueId) w =
    (Request (graphql_pinnedIssues 3)
     :: if existsb (fun id => strict_eq id issueId) ids then [mutation] else [])
  /\ (existsb (fun id => strict_eq id issueId) ids = false ->
      (unpin rt ext issueId w).1 = Ok VUndefined)
  /\ heap (unpin rt ext issueId w).2 = heap w.
Proof.
  intros Hdata mutation. unfold events_of, unpin.
  rewrite !bind_unfold, (isPinned_listed issueId w ids Hdata).
  destruct (existsb _ ids); cbn [negb].
  - unfold call. cbn [snd fst heap trace]. split; [|done].
    by rewrite <- app_assoc, drop_app_length.
  - cbn. by rewrite drop_app_length.
Qed.

(** X6. [makeLinkedComments] comments on the new issue first, then on the
    previous one. When the first comment is rejected the second is never
    sent; when the second is rejected the first stays posted, and the error
    is thrown: the series is left half linked. *)
Theorem makeLinkedComments_in_order (newIssueNumber previousIssueNumber : value)
    (w : world) :
  let first := issues_createComment newIssueNumber
                 ("Previous in series: #" ++ ToString rt previousIssueNumber) in
  let second := issues_createComment previousIssueNumber
                  ("Next in series: #" ++ ToString rt newIssueNumber) in
  let run_ := makeLinkedComments rt ext newIssueNumber previousIssueNumber in
  match ext (trace w) first with
  | Throw e => events_of run_ w = [Request first] /\ (run_ w).1 = Throw e
  | Ok _ =>
      events_of run_ w = [Request first; Request second]
      /\ (run_ w).1 = match ext (trace w ++ [Request first])%list second with
                      | Ok _ => Ok tt
                      | Throw e => Throw e
                      end
  end.
Proof.
  intros first second run_. subst run_. unfold events_of, makeLinkedComments.
  fold first second. rewrite bind_call.
  destruct (ext (trace w) first) as [a|e].
  - rewrite bind_call. cbn [trace heap].
    destruct (ext _ second) as [b|e]; unfold mret, M_ret; cbn [snd fst trace];
      by rewrite <- app_assoc, drop_app_length.
  - cbn [snd fst trace]. by rewrite drop_app_length.
Qed.
End Pinning.

Lemma isPinned_not_a_repository :
  (exists message,
     (isPinned not_a_repository (VStr "ID1") (World ∅ [])).1 = Throw (TypeError message))
  /\ (isPinned no_nodes (VStr "ID1") (World ∅ [])).1 = Ok false.
Proof.
  split.
  - apply (proj1 (isPinned_edges not_a_repository (VStr "ID1") (World ∅ [])
                    _ _ VUndefined eq_refl eq_refl eq_refl eq_refl)).
    reflexivity.
  - apply (proj2 (isPinned_edges no_nodes (VStr "ID1") (World ∅ [])
                    _ _ _ eq_refl eq_refl eq_refl eq_refl) VNull); reflexivity.
Defined.

Lemma unpin_not_pinned :
  events_of (unpin integer_runtime (pinning [VStr "ID2"; VStr "ID3"]) (VStr "ID1"))
            (World ∅ [])
  = [Request (graphql_pinnedIssues 3)].
Proof.
  exact (proj1 (unpin_only_pinned integer_runtime (pinning [VStr "ID2"; VStr "ID3"])
                  (VStr "ID1") (World ∅ []) [VStr "ID2"; VStr "ID3"] eq_refl)).
Defined.

(* ===================================================================== *)
(** ** Further properties: the previous issue *)
(* ===================================================================== *)

Section Previous.
Context (rt : runtime) (ext : collaborators).

(** X7. When the list of issues is empty (or its first entry is falsy),
    [getPreviousIssue] does not throw: it answers the absent issue, number
    and node id [undefined] and assignees [''], which [issueExists]
    rejects. *)
Theorem getPreviousIssue_not_found (labels : value) (w : world)
    (response items first : value) :
  ext (trace w) (issues_listForRepo labels) = Ok response ->
  get_field response "data" = Ok items ->
  get_elem items 0 = Ok first ->
  truthy first = false ->
  getPreviousIssue rt ext labels w
  = (Ok no_previous_issue,
     World (heap w) (trace w ++ [Request (issues_listForRepo labels)]))
  /\ issueExists rt (previousIssueNumber no_previous_issue) = false.
Proof.
  intros Hresponse Hitems Hfirst Hfalsy. split; [|done].
  unfold getPreviousIssue.
  by rewrite bind_call, Hresponse, bind_lift, Hitems, bind_lift, Hfirst, Hfalsy.
Qed.

(** X8. When the first issue listed is an object, [getPreviousIssue] answers
    its node id and assignees as they are and, for its number, [Number] of
    it, or [undefined] when the number is falsy. So the issue counts as
    existing if and only if its number is truthy and converts to a number
    [>= 0]: an issue numbered 0 does not exist for [run], although
    [issueExists(0)] is [true]. *)
Theorem getPreviousIssue_found (labels : value) (w : world)
    (response items : value) (props : list (string * value)) :
  ext (trace w) (issues_listForRepo labels) = Ok response ->
  get_field response "data" = Ok items ->
  get_elem items 0 = Ok (VObj props) ->
  let number := assoc props "number" in
  let found := {|
    previousIssueNumber := if truthy number then VNum (ToNumber rt number) else VUndefined;
    previousIssueNodeId := assoc props "node_id";
    previousAssignees := assoc props "assignees" |} in
  (getPreviousIssue rt ext labels w).1 = Ok found
  /\ (issueExists rt (previousIssueNumber found) = true
      <-> truthy number = true /\ number_nonneg (ToNumber rt number))
  /\ (number = VInt 0 -> issueExists rt (previousIssueNumber found) = false)
  /\ issueExists rt (VInt 0) = true.
Proof.
  intros Hresponse Hitems Hfirst number found.
  assert (Hexists : issueExists rt (previousIssueNumber found) = true
                    <-> truthy number = true /\ number_nonneg (ToNumber rt number)).
  { subst found. cbn [previousIssueNumber]. destruct (truthy number).
    - rewrite issueExists_number. naive_solver.
    - split; [done | by intros [? _]]. }
  split; [|split; [done|split; [|done]]].
  - unfold getPreviousIssue.
    by rewrite bind_call, Hresponse, bind_lift, Hitems, bind_lift, Hfirst.
  - intros Hzero. apply not_true_iff_false. intros Hyes.
    apply Hexists in Hyes as [Htruthy _]. by rewrite Hzero in Htruthy.
Qed.

(** X9. Without a previous issue, because no flag asks for the lookup or
    because the lookup finds none, [run] follows up on nothing: it posts no
    comment, closes nothing, and neither queries, unpins nor pins, whatever
    the flags. *)
Theorem run_without_previous (inputs : loc) (w : world) :
  let record := deref w inputs in
  needPreviousIssue (lookup_flags record) = false
  \/ (exists previous,
        (getPreviousIssue rt ext (prop record "labels") w).1 = Ok previous
        /\ issueExists rt (previousIssueNumber previous) = false) ->
  Forall (fun e => is_follow_up e = false) (events_of (run rt ext inputs) w).
Proof.
  intros record Hnone.
  cut (Forall (fun e => not_follow_up e = true) (events_of (run rt ext inputs) w)).
  { intros Hall. eapply Forall_impl; [exact Hall|]. intros e. apply negb_true_iff. }
  rewrite run_events.
  cut (Forall (fun e => not_follow_up e = true) (events_of (run_body rt ext inputs) w)).
  { intros Hbody. destruct (run_body rt ext inputs w).1; [done|].
    apply Forall_app. split; [done | by repeat constructor]. }
  unfold events_of, run_body. rewrite !bind_get.
  fold record. fold (lookup_flags record).
  lazymatch goal with
  | |- context [mbind ?K (if _ then _ else _)] => set (rest_of_run := K)
  end.
  assert (Hrest : forall previous,
            issueExists rt (previousIssueNumber previous) = false ->
            obeys (only not_follow_up) (rest_of_run previous)).
  { intros previous Habsent. subst rest_of_run. cbv beta.
    rewrite Habsent. cbn [andb]. obey. }
  destruct (needPreviousIssue (lookup_flags record)) eqn:Hneed.
  - destruct Hnone as [?|(previous & Hprevious & Habsent)]; [done|].
    rewrite bind_unfold, bind_get. fold record.
    pose proof (getPreviousIssue_world rt ext (prop record "labels") w) as Hw1.
    destruct (getPreviousIssue rt ext _ w) as [[previous'|e] w1];
      cbn [fst snd] in Hprevious, Hw1; [|done].
    injection Hprevious as ->. subst w1.
    destruct (Hrest previous Habsent (World (heap w)
      (trace w ++ [Request (issues_listForRepo (prop record "labels"))])))
      as (rest & -> & Hrest').
    cbn [trace]. rewrite <- app_assoc, drop_app_length.
    apply Forall_cons. split; [done | exact Hrest'].
  - rewrite bind_ret.
    lazymatch goal with
    | |- context [rest_of_run ?previous w] =>
        destruct (Hrest previous eq_refl w) as (rest & -> & Hrest')
    end.
    by rewrite drop_app_length.
Qed.
End Previous.

Lemma getPreviousIssue_nothing_listed :
  getPreviousIssue integer_runtime nothing_listed (VArr [VStr "recurring"]) (World ∅ [])
  = (Ok no_previous_issue,
     World ∅ [Request (issues_listForRepo (VArr [VStr "recurring"]))]).
Proof.
  exact (proj1 (getPreviousIssue_not_found integer_runtime nothing_listed
                  (VArr [VStr "recurring"]) (World ∅ []) _ _ _
                  eq_refl eq_refl eq_refl eq_refl)).
Defined.

Lemma getPreviousIssue_series :
  (getPreviousIssue integer_runtime series (VArr [VStr "recurring"]) (World ∅ [])).1
  = Ok issue_10.
Proof.
  exact (proj1 (getPreviousIssue_found integer_runtime series
                  (VArr [VStr "recurring"]) (World ∅ []) _ _ _
                  eq_refl eq_refl eq_refl)).
Defined.

Lemma run_everything_nothing_listed :
  Forall (fun e => is_follow_up e = false)
         (events_of (run integer_runtime nothing_listed 1) (store_of everything)).
Proof.
  apply (run_without_previous integer_runtime nothing_listed 1 (store_of everything)).
  right. exists no_previous_issue. split; reflexivity.
Defined.

(* ===================================================================== *)
(** ** Further properties: the project column, the milestone, the new issue *)
(* ===================================================================== *)

Lemma find_result_objects (field : string) (target : value)
    (items : list (list (string * value))) :
  find_result (fun item => v ← get_field item field; Ok (strict_eq v target))
              (VObj <$> items)
  = Ok (from_option VObj VUndefined
          (List.find (fun props => strict_eq (assoc props field) target) items)).
Proof.
  induction items as [|props rest IH]; [done|].
  cbn [fmap list_fmap find_result List.find get_field mbind result_bind].
  by destruct (strict_eq (assoc props field) target).
Qed.

Lemma prop_kept (o : gmap string value) (key : string) : prop (kept o) key = sent o key.
Proof.
  unfold sent, prop. rewrite kept_lookup.
  destruct (o !! key) as [v|]; simpl; [|done]. by destruct (is_empty_prop v).
Qed.

Section Filing.
Context (rt : runtime) (ext : collaborators).

(** X10. When no project of the repository has the number asked for
    ([Number(projectNumber)], so that ['5'] finds project 5),
    [addIssueToProjectColumn] stops after listing the projects: it lists no
    column, creates no card, and returns normally. *)
Theorem addIssueToProjectColumn_no_project (issueId projectNumber columnName : value)
    (w : world) (projects : list (list (string * value))) :
  ext (trace w) projects_listForRepo = Ok (listing projects) ->
  List.find (fun project =>
               strict_eq (assoc project "number") (VNum (ToNumber rt projectNumber)))
            projects = None ->
  addIssueToProjectColumn rt ext issueId projectNumber columnName w
  = (Ok tt, World (heap w) (trace w ++ [Request projects_listForRepo])).
Proof.
  intros Hprojects Hnone. unfold addIssueToProjectColumn.
  rewrite bind_call, Hprojects, bind_lift.
  cbn [listing destructure nullish mbind result_bind get_field assoc String.eqb
       Ascii.eqb Bool.eqb].
  rewrite bind_lift. cbn [array_find]. by rewrite find_result_objects, Hnone.
Qed.

(** X11. When the project is found, [addIssueToProjectColumn] lists its
    columns, by the project's id, and creates a card only when a column has
    exactly the name asked for: the card goes to that column, for the issue
    id, with content type 'Issue', and is the last request. Without such a
    column the function returns normally after the two listings. *)
Theorem addIssueToProjectColumn_column (issueId projectNumber columnName : value)
    (w : world) (projects columns : list (list (string * value)))
    (project : list (string * value)) :
  ext (trace w) projects_listForRepo = Ok (listing projects) ->
  List.find (fun project =>
               strict_eq (assoc project "number") (VNum (ToNumber rt projectNumber)))
            projects = Some project ->
  ext (trace w ++ [Request projects_listForRepo])%list
      (projects_listColumns (assoc project "id")) = Ok (listing columns) ->
  let file := addIssueToProjectColumn rt ext issueId projectNumber columnName in
  let found := List.find (fun column => strict_eq (assoc column "name") columnName)
                         columns in
  events_of file w =
    (Request projects_listForRepo
     :: Request (projects_listColumns (assoc project "id"))
     :: match found with
        | Some column =>
            [Request (projects_createCard (assoc column "id") issueId "Issue")]
        | None => []
        end)
  /\ (found = None -> (file w).1 = Ok tt)
  /\ heap (file w).2 = heap w.
Proof.
  intros Hprojects Hproject Hcolumns file found. subst file.
  unfold events_of, addIssueToProjectColumn.
  rewrite bind_call, Hprojects, bind_lift.
  cbn [listing destructure nullish mbind result_bind get_field assoc String.eqb
       Ascii.eqb Bool.eqb].
  rewrite bind_lift. cbn [array_find]. rewrite find_result_objects, Hproject.
  cbn [from_option truthy negb]. rewrite bind_lift. cbn [get_field].
  rewrite bind_call. cbn [trace heap]. rewrite Hcolumns, bind_lift.
  cbn [listing destructure nullish mbind result_bind get_field assoc String.eqb
       Ascii.eqb Bool.eqb].
  rewrite bind_lift. cbn [array_find]. rewrite find_result_objects. fold found.
  destruct found as [column|]; cbn [from_option truthy negb].
  - rewrite bind_lift. cbn [get_field]. rewrite bind_call. cbn [trace heap].
    lazymatch goal with
    | |- context [ext ?h (projects_createCard ?a ?b ?c)] =>
        destruct (ext h (projects_createCard a b c))
    end; unfold mret, M_ret; cbn [fst snd trace heap];
      (split; [|done]); by rewrite <- !app_assoc, drop_app_length.
  - unfold mret, M_ret. cbn [fst snd trace heap]. split; [|done].
    by rewrite <- !app_assoc, drop_app_length.
Qed.

(** X12. [addIssueToMilestone] sends one update. An answer without data is
    not an error: the function returns normally for any answer that is not
    [undefined] or [null], throws a TypeError for those two, and throws the
    rejection of a rejected update. *)
Theorem addIssueToMilestone_outcome (issueNumber milestoneNumber : value) (w : world) :
  let update := issues_update_milestone issueNumber milestoneNumber in
  let attach := addIssueToMilestone ext issueNumber milestoneNumber in
  (attach w).2 = World (heap w) (trace w ++ [Request update])
  /\ match ext (trace w) update with
     | Throw e => (attach w).1 = Throw e
     | Ok response =>
         if nullish response
         then exists message, (attach w).1 = Throw (TypeError message)
         else (attach w).1 = Ok tt
     end.
Proof.
  intros update attach. subst attach. unfold addIssueToMilestone. fold update.
  rewrite bind_call. destruct (ext (trace w) update) as [response|e]; [|done].
  rewrite bind_lift. unfold destructure.
  destruct response; cbn [nullish typeof_nullish mbind result_bind get_field];
    split; try done; by eexists.
Qed.

(** X13. What [createNewIssue] makes of the answer to its request. Without
    data in the answer it throws a TypeError: for a falsy answer too, since
    the empty object substituted for it has no data either. With data, it
    answers the id and node id as they are, and [Number] of the number: the
    issue number it returns is always a number, [NaN] when the answer has
    none. *)
Theorem createNewIssue_answer (options : loc) (w : world) (o : gmap string value)
    (response data : value) :
  heap w !! options = Some o ->
  ext (trace w) (issues_create (sent o "title") (sent o "labels")
                               (sent o "assignees") (sent o "body")) = Ok response ->
  get_field (if truthy response then response else VObj []) "data" = Ok data ->
  (nullish data = true ->
     exists message, (createNewIssue rt ext options w).1 = Throw (TypeError message))
  /\ (forall props, data = VObj props ->
        (createNewIssue rt ext options w).1
        = Ok {| newIssueNumber := VNum (ToNumber rt (assoc props "number"));
                newIssueId := assoc props "id";
                newIssueNodeId := assoc props "node_id" |})
  /\ (truthy response = false ->
      exists message, (createNewIssue rt ext options w).1 = Throw (TypeError message)).
Proof.
  intros Hoptions Hresponse Hdata.
  assert (Hrun : createNewIssue rt ext options w =
    (data' ← lift (Ok data ≫= destructure);
     number ← lift (get_field data' "number");
     id ← lift (get_field data' "id");
     node_id ← lift (get_field data' "node_id");
     mret {| newIssueNumber := VNum (ToNumber rt number);
             newIssueId := id;
             newIssueNodeId := node_id |})
      (createNewIssue rt ext options w).2).
  { rewrite (createNewIssue_world rt ext options w o Hoptions).
    unfold createNewIssue. rewrite bind_unfold.
    unfold Object_assign_new at 1. rewrite (deref_Some _ _ _ Hoptions).
    rewrite bind_unfold.
    erewrite removeEmptyProps_run by (cbn [heap]; apply lookup_insert_eq).
    cbn [heap trace]. rewrite insert_insert_eq.
    rewrite !bind_get.
    erewrite !deref_Some by (cbn [heap]; apply lookup_insert_eq).
    rewrite bind_call. cbn [heap trace]. rewrite !prop_kept, Hresponse.
    cbv zeta. by rewrite Hdata. }
  rewrite Hrun. clear Hrun. rewrite bind_lift. cbn [mbind result_bind]. unfold destructure.
  split; [|split].
  - intros ->. by eexists.
  - intros props ->. cbn [nullish]. by rewrite !bind_lift.
  - intros Hfalsy. rewrite Hfalsy in Hdata. injection Hdata as <-. by eexists.
Qed.

(** X14. [createNewIssue] sends exactly one request, whose four fields are
    the options as they are, except that an option that is [''] or
    [undefined] (or missing) is sent as [undefined]; [null], [0] and [false]
    go through. *)
Theorem createNewIssue_sends (options : loc) (w : world) (o : gmap string value) :
  heap w !! options = Some o ->
  events_of (createNewIssue rt ext options) w
  = [Request (issues_create (sent o "title") (sent o "labels")
                            (sent o "assignees") (sent o "body"))]
  /\ (forall key, sent o key <> VStr "")
  /\ (forall key, prop o key <> VStr "" -> sent o key = prop o key)
  /\ (forall key, prop o key = VStr "" -> sent o key = VUndefined).
Proof.
  intros Hoptions. split; [|split; [|split]].
  - unfold events_of. rewrite (createNewIssue_world rt ext options w o Hoptions).
    cbn [trace]. by rewrite drop_app_length, !prop_kept.
  - intros key. unfold sent. destruct (is_empty_prop (prop o key)) eqn:Hempty; [done|].
    intros Heq. rewrite Heq in Hempty. done.
  - intros key Hkey. unfold sent.
    destruct (is_empty_prop (prop o key)) eqn:Hempty; [|done].
    apply is_empty_prop_spec in Hempty as [Heq|Heq]; [done | by rewrite Heq].
  - intros key Hkey. unfold sent. by rewrite Hkey.
Qed.
End Filing.

Lemma addIssueToProjectColumn_no_such_project :
  addIssueToProjectColumn integer_runtime board (VInt 2000) (VStr "7") (VStr "To do")
                          (World ∅ [])
  = (Ok tt, World ∅ [Request projects_listForRepo]).
Proof.
  exact (addIssueToProjectColumn_no_project integer_runtime board (VInt 2000) (VStr "7")
           (VStr "To do") (World ∅ []) _ eq_refl eq_refl).
Defined.

Lemma addIssueToProjectColumn_backlog_and_to_do :
  events_of (addIssueToProjectColumn integer_runtime board (VInt 2000) (VStr "5")
                                     (VStr "Backlog")) (World ∅ [])
  = [Request projects_listForRepo; Request (projects_listColumns (VInt 500))]
  /\ events_of (addIssueToProjectColumn integer_runtime board (VInt 2000) (VStr "5")
                                        (VStr "To do")) (World ∅ [])
     = [Request projects_listForRepo; Request (projects_listColumns (VInt 500));
        Request (projects_createCard (VInt 51) (VInt 2000) "Issue")].
Proof.
  split.
  - exact (proj1 (addIssueToProjectColumn_column integer_runtime board (VInt 2000)
                    (VStr "5") (VStr "Backlog") (World ∅ []) _ _ _
                    eq_refl eq_refl eq_refl)).
  - exact (proj1 (addIssueToProjectColumn_column integer_runtime board (VInt 2000)
                    (VStr "5") (VStr "To do") (World ∅ []) _ _ _
                    eq_refl eq_refl eq_refl)).
Defined.

Lemma createNewIssue_mute_throws :
  exists message,
    (createNewIssue integer_runtime mute 1 (store_of blank_options)).1
    = Throw (TypeError message).
Proof.
  exact (proj2 (proj2 (createNewIssue_answer integer_runtime mute 1
                         (store_of blank_options) blank_options VUndefined VUndefined
                         eq_refl eq_refl eq_refl)) eq_refl).
Defined.

Lemma createNewIssue_blank_options :
  events_of (createNewIssue integer_runtime mute 1) (store_of blank_options)
  = [Request (issues_create VUndefined (VArr [VStr "recurring"]) VUndefined VNull)].
Proof.
  exact (proj1 (createNewIssue_sends integer_runtime mute 1 (store_of blank_options)
                  blank_options eq_refl)).
Defined.

(* ===================================================================== *)
(** ** Further properties: the output and the store of a run *)
(* ===================================================================== *)

Lemma output_bind {A B} (m : M A) (k : A -> M B) :
  obeys (only not_output) m -> (forall a, obeys output_last (k a)) ->
  obeys output_last (m ≫= k).
Proof.
  intros Hm Hk w. rewrite bind_unfold. destruct (Hm w) as (evs1 & Htrace1 & Hevs1).
  destruct (m w) as [[a|e] w1]; cbn [fst snd] in *.
  - destruct (Hk a w1) as (evs2 & Htrace2 & Hevs2).
    exists (evs1 ++ evs2)%list. split; [by rewrite Htrace2, Htrace1, app_assoc|].
    destruct Hevs2 as [Hnone|(Hok & pre & v & -> & Hpre)].
    + left. by apply Forall_app.
    + right. split; [done|]. exists (evs1 ++ pre)%list, v.
      split; [by rewrite app_assoc | by apply Forall_app].
  - exists evs1. split; [done | by left].
Qed.

Section Output.
Context (rt : runtime) (ext : collaborators).

Lemma run_body_output_last (inputs : loc) : obeys output_last (run_body rt ext inputs).
Proof.
  unfold run_body. repeat (apply output_bind; [solve [obey] | intros ?]).
  destruct (truthy _).
  - intros w. eexists [_]. split; [done|]. right. split; [done|].
    by eexists [], _.
  - intros w. exists []. split; [by rewrite app_nil_r | left; constructor].
Qed.

(** X15. [run] sets its output at most once: it is the output
    [issue-number], it is the last event of the run, and the run that sets
    it reports no failure (its [try] block ends normally). *)
Theorem run_outputs_last (inputs : loc) (w : world)
    (pre post : list event) (name v : string) :
  events_of (run rt ext inputs) w = (pre ++ SetOutput name v :: post)%list ->
  post = [] /\ name = "issue-number"
  /\ Forall (fun e => is_output e = false /\ not_failure e = true) pre
  /\ (run_body rt ext inputs w).1 = Ok tt.
Proof.
  intros Hevents. rewrite run_events in Hevents.
  destruct (obeys_events_of (run_body rt ext inputs) w (run_body_output_last inputs))
    as [_ Hlast].
  destruct (obeys_events_of (run_body rt ext inputs) w (run_body_never_reports rt ext inputs))
    as [_ Hquiet].
  unfold only in Hquiet.
  assert (Hno : forall evs, Forall (fun e => not_output e = true) evs ->
                            evs <> (pre ++ SetOutput name v :: post)%list).
  { intros evs Hall ->. apply Forall_app in Hall as [_ Hall]. by inversion Hall. }
  destruct (run_body rt ext inputs w).1 as [[]|e]; cbn [outcome] in Hlast.
  - destruct Hlast as [Hnone|(_ & pre' & v' & Hbody & Hpre')]; [by destruct (Hno _ Hnone)|].
    rewrite Hbody in Hevents, Hquiet.
    apply snoc_eq_app_cons in Hevents as [(-> & [= <- <-] & <-)|(post' & -> & ->)].
    + apply Forall_app in Hquiet as [Hquiet _]. repeat split; try done.
      apply Forall_forall. intros e He. split.
      * apply negb_true_iff. by eapply Forall_forall in Hpre'.
      * by eapply Forall_forall in Hquiet.
    + apply Forall_app in Hpre' as [_ Hpre']. by inversion Hpre'.
  - destruct Hlast as [Hnone|(? & _)]; [|done].
    destruct (Hno (events_of (run_body rt ext inputs) w ++ [SetFailed (failure_message e)])%list);
      [|done].
    apply Forall_app. split; [done | by repeat constructor].
Qed.
End Output.

Lemma run_series_outputs_last :
  (run_body integer_runtime series 1 (store_of close_and_pin)).1 = Ok tt.
Proof.
  destruct (run_outputs_last integer_runtime series 1 (store_of close_and_pin)
              [Request (issues_listForRepo (VArr [VStr "recurring"]));
               Request (handlebars_render (VStr "Agenda") (VInt 10) VUndefined);
               Request (issues_create (VStr "Weekly sync") (VArr [VStr "recurring"])
                                      VUndefined (VStr "Agenda"));
               Request (issues_update_state (VInt 10) "closed");
               Request (graphql_pinnedIssues 3);
               Request (graphql_unpinIssue "N10");
               Request (graphql_pinIssue "N20")]
              [] "issue-number" "20" run_series_events) as (_ & _ & _ & Hbody).
  exact Hbody.
Defined.

Lemma untouched_refl (inputs : loc) (w : world) : untouched inputs w w.
Proof. split; [apply same_flags_refl | done]. Qed.

Lemma untouched_trans (inputs : loc) (w1 w2 w3 : world) :
  untouched inputs w1 w2 -> untouched inputs w2 w3 -> untouched inputs w1 w3.
Proof.
  intros [Hflags12 Hothers12] [Hflags23 Hothers23]. split.
  - by eapply same_flags_trans.
  - intros l o Hl Ho. by apply Hothers23, Hothers12.
Qed.

Lemma createNewIssue_world_any (rt : runtime) (ext : collaborators)
    (options : loc) (w : world) :
  heap (createNewIssue rt ext options w).2
  = <[fresh (dom (heap w)) := kept (deref w options)]> (heap w).
Proof.
  unfold createNewIssue. rewrite bind_unfold. unfold Object_assign_new at 1.
  rewrite bind_unfold.
  erewrite removeEmptyProps_run by (cbn [heap]; apply lookup_insert_eq).
  cbn [heap trace]. rewrite insert_insert_eq. rewrite !bind_get, bind_call. cbn [heap trace].
  destruct (ext _ _) as [response|e]; [|done].
  by rewrite silent_world by silence.
Qed.

Section Leaves.
Context (rt : runtime) (ext : collaborators) (inputs : loc).

Lemma leaves_unchanged {A} (m : M A) :
  (forall w, heap (m w).2 = heap w) -> leaves inputs m.
Proof.
  intros Hm w. split; [by apply same_flags_heap|]. intros l o _. by rewrite Hm.
Qed.

Lemma leaves_bind {A B} (m : M A) (k : A -> M B) :
  leaves inputs m -> (forall a, leaves inputs (k a)) -> leaves inputs (m ≫= k).
Proof.
  intros Hm Hk w. rewrite bind_unfold. specialize (Hm w).
  destruct (m w) as [[a|e] w1]; [|done].
  eapply untouched_trans; [exact Hm | apply Hk].
Qed.

Lemma leaves_if {A} (b : bool) (m1 m2 : M A) :
  leaves inputs m1 -> leaves inputs m2 -> leaves inputs (if b then m1 else m2).
Proof. by destruct b. Qed.

Lemma leaves_set (field : string) (v : value) :
  field = "assignees" \/ field = "body" -> leaves inputs (set inputs field v).
Proof.
  intros Hfield w. split; [by apply keeps_set|].
  intros l o Hl Ho. unfold set. cbn [snd heap]. by rewrite lookup_insert_ne.
Qed.

Lemma leaves_createNewIssue : leaves inputs (createNewIssue rt ext inputs).
Proof.
  intros w. pose proof (fresh_loc_unused (heap w)) as Hfresh. split.
  - intros key _ _. unfold deref at 1. rewrite createNewIssue_world_any.
    destruct (decide (fresh (dom (heap w)) = inputs)) as [Heq|Hne].
    + rewrite Heq, lookup_insert_eq. cbn [default from_option id].
      unfold deref. rewrite <- Heq, Hfresh. cbn [default from_option id].
      unfold prop. by rewrite kept_lookup, lookup_empty.
    + by rewrite lookup_insert_ne.
  - intros l o Hl Ho. rewrite createNewIssue_world_any.
    rewrite lookup_insert_ne; [done|]. intros Heq. congruence.
Qed.

Lemma leaves_run_body : leaves inputs (run_body rt ext inputs).
Proof.
  unfold run_body, addIssueToProjectColumn, addIssueToMilestone, makeLinkedComments,
    closeIssue, unpin, pin, isPinned, getPreviousIssue.
  repeat lazymatch goal with
  | |- forall _, _ => intros ?
  | |- leaves _ (mbind _ _) => apply leaves_bind
  | |- leaves _ (if _ then _ else _) => apply leaves_if
  | |- leaves _ (let '(_, _) := ?x in _) => destruct x
  | |- leaves _ (let _ := _ in _) => cbv zeta
  | |- leaves _ (set _ _ _) => apply leaves_set; auto
  | |- leaves _ (createNewIssue _ _ _) => apply leaves_createNewIssue
  | |- leaves _ _ => by apply leaves_unchanged
  end.
Qed.

(** X16. Whatever happens in a run, [run] changes no field of [inputs] other
    than [assignees] and [body], and changes no other record of the store
    (the copy that [createNewIssue] strips is a new one). *)
Theorem run_leaves_the_store (w : world) :
  (forall key, key <> "assignees" -> key <> "body" ->
     prop (deref (run rt ext inputs w).2 inputs) key = prop (deref w inputs) key)
  /\ (forall l o, l <> inputs -> heap w !! l = Some o ->
        heap (run rt ext inputs w).2 !! l = Some o).
Proof.
  pose proof (leaves_run_body w) as Hbody. rewrite run_unfold.
  by destruct (run_body rt ext inputs w) as [[[]|e] w1].
Qed.
End Leaves.

(* ===================================================================== *)
(** ** Further properties: the rotation in a run *)
(* ===================================================================== *)

Lemma getNextAssignee_array (rt : runtime) (A : list value) (P : value) :
  A <> [] ->
  getNextAssignee rt (VArr A) P =
    Ok (VArr [nth (Z.to_nat ((indexOf A P + 1) mod Z.of_nat (length A))) A VUndefined]).
Proof.
  intros HA. assert (0 < Z.of_nat (length A)) by (destruct A; [done | simpl; lia]).
  cbn [getNextAssignee]. unfold js_rem. destruct (decide _) as [?|_]; [lia|].
  rewrite Z.rem_mod_nonneg; [done| |done].
  destruct (indexOf_from_range A P 0) as [Hi|Hi]; unfold indexOf; lia.
Qed.

Lemma truthy_length (n : nat) : truthy (VInt (Z.of_nat (S n))) = true.
Proof. reflexivity. Qed.

Lemma set_run (obj : loc) (key : string) (v : value) (w : world) :
  set obj key v w
  = (Ok tt, World (<[obj := <[key := v]> (deref w obj)]> (heap w)) (trace w)).
Proof. reflexivity. Qed.

Lemma prop_insert_eq (o : gmap string value) (key : string) (v : value) :
  prop (<[key := v]> o) key = v.
Proof. unfold prop. by rewrite lookup_insert_eq. Qed.

Lemma prop_insert_ne (o : gmap string value) (key key' : string) (v : value) :
  key <> key' -> prop (<[key := v]> o) key' = prop o key'.
Proof. intros Hne. unfold prop. by rewrite lookup_insert_ne. Qed.

Lemma sent_insert_ne (o : gmap string value) (key key' : string) (v : value) :
  key <> key' -> sent (<[key := v]> o) key' = sent o key'.
Proof. intros Hne. unfold sent. by rewrite prop_insert_ne. Qed.

Section Rotation.
Context (rt : runtime) (ext : collaborators).

(** X17. Rotation reaches the new issue. In a run that rotates, with a
    previous issue whose first assignee has the login [login] and with a
    non-empty array [A] of assignees in the inputs, the body is rendered
    with, and the new issue is created with, the single assignee
    [A[(indexOf(A, login) + 1) mod length(A)]]; the other fields of the
    creation request are the title and the labels of the inputs and the
    rendered body. *)
Theorem run_rotates (inputs : loc) (w : world) (previous : previous_issue)
    (first login : value) (rest A : list value) :
  let record := deref w inputs in
  needPreviousIssue (lookup_flags record) = true ->
  truthy (prop record "rotateAssignees") = true ->
  (getPreviousIssue rt ext (prop record "labels") w).1 = Ok previous ->
  issueExists rt (previousIssueNumber previous) = true ->
  previousAssignees previous = VArr (first :: rest) ->
  get_field first "login" = Ok login ->
  prop record "assignees" = VArr A ->
  A <> [] ->
  let next :=
    VArr [nth (Z.to_nat ((indexOf A login + 1) mod Z.of_nat (length A))) A VUndefined] in
  let lookup := Request (issues_listForRepo (prop record "labels")) in
  let render :=
    handlebars_render (prop record "body") (previousIssueNumber previous) next in
  exists later : list event,
    events_of (run rt ext inputs) w = lookup :: Request render :: later
    /\ forall rendered,
         ext (trace w ++ [lookup])%list render = Ok rendered ->
         exists later',
           later =
             Request (issues_create (sent record "title") (sent record "labels") next
                        (if is_empty_prop rendered then VUndefined else rendered))
             :: later'.
Proof.
  intros record Hneed Hrotate Hprevious Hexists Hassignees Hlogin HA Hnonempty
         next lookup render.
  unfold events_of. rewrite run_unfold. unfold run_body. rewrite !bind_get.
  fold record. fold (lookup_flags record). rewrite Hneed.
  rewrite bind_unfold, bind_get. fold record.
  pose proof (getPreviousIssue_world rt ext (prop record "labels") w) as Hw1.
  destruct (getPreviousIssue rt ext _ w) as [[previous'|e] w1];
    cbn [fst snd] in Hprevious, Hw1; [|done].
  injection Hprevious as ->. subst w1. fold lookup.
  rewrite bind_get.
  change (deref (World (heap w) _) inputs) with record.
  rewrite Hexists, Hrotate. cbn [andb].
  (* the rotation *)
  rewrite bind_unfold, bind_lift, Hassignees.
  change (get_field (VArr (first :: rest)) "length")
    with (Ok (VInt (Z.of_nat (S (length rest))))).
  cbv beta iota. rewrite bind_unfold, truthy_length.
  change (get_elem (VArr (first :: rest)) 0 ≫= (fun first0 => get_field first0 "login"))
    with (get_field first "login").
  unfold lift at 1. rewrite Hlogin. cbv beta iota. rewrite bind_get.
  change (deref (World (heap w) _) inputs) with record.
  rewrite HA, bind_lift, (getNextAssignee_array rt A login Hnonempty). fold next.
  cbv beta iota. rewrite set_run. cbn [heap trace]. cbv beta iota.
  change (deref (World (heap w) _) inputs) with record.
  (* the body is rendered with the rotated assignees *)
  rewrite !bind_get.
  erewrite !deref_Some by (cbn [heap]; apply lookup_insert_eq).
  rewrite prop_insert_ne by done. rewrite prop_insert_eq. fold render.
  rewrite bind_call. cbn [heap trace].
  destruct (ext (trace w ++ [lookup]) render) as [rendered|e] eqn:Hrender.
  2:{ exists [SetFailed (failure_message e)]. cbn [snd trace]. split; [|done].
      by rewrite <- !app_assoc, drop_app_length. }
  (* the new issue is created with them *)
  rewrite bind_unfold, set_run. cbn [heap trace].
  erewrite !deref_Some by (cbn [heap]; apply lookup_insert_eq).
  rewrite insert_insert_eq.
  set (options := <["body" := rendered]> (<["assignees" := next]> record)).
  set (w4 := World (<[inputs := options]> (heap w))
                   ((trace w ++ [lookup]) ++ [Request render])).
  lazymatch goal with
  | |- context [mbind ?K (createNewIssue rt ext inputs)] => set (after_creation := K)
  end.
  assert (Hlater : forall created, obeys (only any_event) (after_creation created))
    by (intros created; subst after_creation; obey).
  assert (Hoptions : heap w4 !! inputs = Some options) by apply lookup_insert_eq.
  pose proof (createNewIssue_world rt ext inputs w4 options Hoptions) as Hw5.
  rewrite !prop_kept in Hw5.
  assert (Hsent : issues_create (sent options "title") (sent options "labels")
                                (sent options "assignees") (sent options "body")
                  = issues_create (sent record "title") (sent record "labels") next
                      (if is_empty_prop rendered then VUndefined else rendered)).
  { subst options. rewrite !(sent_insert_ne _ "body") by done. f_equal.
    - by apply sent_insert_ne.
    - by apply sent_insert_ne.
    - unfold sent. by rewrite prop_insert_eq.
    - unfold sent. by rewrite prop_insert_eq. }
  rewrite Hsent in Hw5. clear Hsent.
  set (create := Request (issues_create _ _ _ _)) in Hw5.
  rewrite bind_unfold.
  destruct (createNewIssue rt ext inputs w4) as [[created|e] w5]; cbn [snd] in Hw5; subst w5.
  - destruct (Hlater created (World (<[fresh (dom (heap w4)) := kept options]> (heap w4))
                                    (trace w4 ++ [create])))
      as (evs & Htrace & _).
    destruct (after_creation created _) as [[[]|e] w6]; cbn [snd trace] in Htrace |- *.
    + exists (create :: evs). split; [|intros ? [= <-]; by eexists].
      rewrite Htrace. subst w4. cbn [trace]. by rewrite <- !app_assoc, drop_app_length.
    + exists (create :: evs ++ [SetFailed (failure_message e)])%list.
      split; [|intros ? [= <-]; by eexists].
      rewrite Htrace. subst w4. cbn [trace]. by rewrite <- !app_assoc, drop_app_length.
  - exists [create; SetFailed (failure_message e)].
    split; [|intros ? [= <-]; by eexists].
    cbn [snd trace]. subst w4. cbn [trace]. by rewrite <- !app_assoc, drop_app_length.
Qed.
End Rotation.


Lemma run_rotates_alice_to_bob :
  exists later : list event,
    events_of (run integer_runtime series 1) (store_of everything) =
      Request (issues_listForRepo (VArr [VStr "recurring"]))
      :: Request (handlebars_render (VStr "Agenda") (VInt 10) (VArr [VStr "bob"]))
      :: Request (issues_create (VStr "Weekly sync") (VArr [VStr "recurring"])
                                (VArr [VStr "bob"]) (VStr "Agenda"))
      :: later.
Proof.
  destruct (run_rotates integer_runtime series 1 (store_of everything) issue_10
              (VObj [("login", VStr "alice")]) (VStr "alice") []
              [VStr "alice"; VStr "bob"])
    as (later & Hevents & Hcreate).
  - vm_compute. reflexivity.
  - vm_compute. reflexivity.
  - vm_compute. reflexivity.
  - vm_compute. reflexivity.
  - reflexivity.
  - reflexivity.
  - vm_compute. reflexivity.
  - discriminate.
  - destruct (Hcreate (VStr "Agenda") eq_refl) as (later' & ->).
    exists later'. rewrite Hevents. vm_compute. reflexivity.
Defined.

(* ===================================================================== *)
(** ** Further properties: a plain run, and arrays in the validation *)
(* ===================================================================== *)

Section Plain.
Context (rt : runtime) (ext : collaborators).

Lemma createNewIssue_created (options : loc) (w : world) (o : gmap string value)
    (response : value) (props : list (string * value)) :
  heap w !! options = Some o ->
  ext (trace w) (issues_create (sent o "title") (sent o "labels")
                               (sent o "assignees") (sent o "body")) = Ok response ->
  truthy response = true ->
  get_field response "data" = Ok (VObj props) ->
  createNewIssue rt ext options w
  = (Ok {| newIssueNumber := VNum (ToNumber rt (assoc props "number"));
           newIssueId := assoc props "id";
           newIssueNodeId := assoc props "node_id" |},
     World (<[fresh (dom (heap w)) := kept o]> (heap w))
           (trace w ++ [Request (issues_create (sent o "title") (sent o "labels")
                                               (sent o "assignees") (sent o "body"))])).
Proof.
  intros Hoptions Hresponse Htruthy Hdata.
  unfold createNewIssue. rewrite bind_unfold.
  unfold Object_assign_new at 1. rewrite (deref_Some _ _ _ Hoptions).
  rewrite bind_unfold.
  erewrite removeEmptyProps_run by (cbn [heap]; apply lookup_insert_eq).
  cbn [heap trace]. rewrite insert_insert_eq.
  rewrite !bind_get.
  erewrite !deref_Some by (cbn [heap]; apply lookup_insert_eq).
  rewrite bind_call. cbn [heap trace]. rewrite !prop_kept, Hresponse.
  cbv zeta. rewrite Htruthy, bind_lift, Hdata. cbn [mbind result_bind destructure nullish].
  by rewrite !bind_lift.
Qed.

(** X18. A plain run: no flag asks for the previous issue and neither a
    project column nor a milestone is given. When the body renders and the
    creation is answered with the data of the new issue, the run makes these
    two requests and nothing else, the template seeing -1 as the previous
    issue number, and then outputs [String(Number(data.number))]; when that
    number is falsy ([NaN] for an answer without number) it outputs nothing,
    and reports no failure either. *)
Theorem run_plain (inputs : loc) (w : world) (rendered response : value)
    (props : list (string * value)) :
  let record := deref w inputs in
  let render :=
    handlebars_render (prop record "body") (VInt (-1)) (prop record "assignees") in
  let options := <["body" := rendered]> record in
  let create := issues_create (sent options "title") (sent options "labels")
                              (sent options "assignees") (sent options "body") in
  let number := VNum (ToNumber rt (assoc props "number")) in
  needPreviousIssue (lookup_flags record) = false ->
  truthy (js_and (prop record "project") (prop record "column")) = false ->
  truthy (prop record "milestone") = false ->
  ext (trace w) render = Ok rendered ->
  ext (trace w ++ [Request render])%list create = Ok response ->
  truthy response = true ->
  get_field response "data" = Ok (VObj props) ->
  events_of (run rt ext inputs) w =
    (Request render :: Request create
     :: if truthy number then [SetOutput "issue-number" (ToString rt number)] else []).
Proof.
  intros record render options create number Hneed Hproject Hmilestone
         Hrendered Hresponse Htruthy Hdata.
  unfold events_of. rewrite run_unfold. unfold run_body. rewrite !bind_get.
  fold record. fold (lookup_flags record). rewrite Hneed, bind_ret.
  cbn [previousIssueNumber previousIssueNodeId previousAssignees].
  rewrite bind_get.
  change (issueExists rt (VInt (-1))) with false. cbn [andb].
  rewrite bind_ret, !bind_get. fold record. fold render.
  rewrite bind_call, Hrendered, bind_unfold, set_run. cbn [heap trace].
  change (deref (World (heap w) _) inputs) with record. fold options.
  set (w4 := World (<[inputs := options]> (heap w)) (trace w ++ [Request render])).
  assert (Hoptions : heap w4 !! inputs = Some options) by apply lookup_insert_eq.
  rewrite bind_unfold.
  rewrite (createNewIssue_created inputs w4 options response props Hoptions Hresponse
             Htruthy Hdata).
  fold create. cbn [newIssueNumber newIssueId newIssueNodeId]. fold number.
  set (w5 := World _ (trace w4 ++ [Request create])).
  assert (Hrecord : deref w5 inputs = options).
  { apply deref_Some. subst w5. cbn [heap]. rewrite lookup_insert_ne; [done|].
    intros Heq. pose proof (fresh_loc_unused (heap w4)) as Hfresh. congruence. }
  assert (Hsame : forall key, key <> "body" -> prop (deref w5 inputs) key = prop record key).
  { intros key Hkey. rewrite Hrecord. subst options. by apply prop_insert_ne. }
  rewrite !bind_get, !Hsame, Hproject by done. rewrite bind_ret.
  rewrite !bind_get, !Hsame, Hmilestone by done. rewrite bind_ret.
  rewrite !bind_get. rewrite bind_ret. rewrite !bind_get. rewrite bind_ret.
  subst w5 w4. destruct (truthy number); unfold emit, mret, M_ret; cbn [fst snd trace];
    by rewrite <- ?app_assoc, drop_app_length.
Qed.
End Plain.

Lemma run_plain_series :
  events_of (run integer_runtime series 1) (store_of plain) =
    [Request (handlebars_render (VStr "Agenda") (VInt (-1)) VUndefined);
     Request (issues_create (VStr "Weekly sync") VUndefined VUndefined (VStr "Agenda"));
     SetOutput "issue-number" "20"].
Proof.
  rewrite (run_plain integer_runtime series 1 (store_of plain) (VStr "Agenda")
             (VObj [("data", VObj [("number", VInt 20); ("id", VInt 2000);
                                   ("node_id", VStr "N20")])])
             [("number", VInt 20); ("id", VInt 2000); ("node_id", VStr "N20")]);
    vm_compute; reflexivity.
Defined.

(** X19. For the validation an array is never empty: [checkInputs] accepts
    inputs with a title whose labels and assignees are arrays, whatever the
    flags, even when the arrays hold nothing. *)
Theorem checkInputs_accepts_arrays (inputs : gmap string value)
    (labels assignees : list value) :
  truthy (prop inputs "title") = true ->
  prop inputs "labels" = VArr labels ->
  prop inputs "assignees" = VArr assignees ->
  checkInputs inputs = true.
Proof.
  intros Htitle Hlabels Hassignees.
  rewrite checkInputs_last_rule, Htitle, Hlabels, Hassignees. simpl.
  by repeat case_match.
Qed.

Lemma checkInputs_empty_arrays : checkInputs empty_arrays = true.
Proof.
  exact (checkInputs_accepts_arrays empty_arrays [] [] eq_refl eq_refl eq_refl).
Defined.
